(** * azure-monitor-app: the two monitor modules and the monitoring cycle

    A shallow embedding of [src/websiteMonitor.js], of the Azure file
    monitor (class [AzureFileMonitor]) and of [runMonitoring] from
    [src/server.js], followed by the properties of the specification that
    concern them.

    Conventions of the embedding.
    - A JavaScript number that holds an integer (a count, a status code, a
      time in milliseconds) is a [Z]; a [Date] is the [Z] of its time value,
      and [toISOString] is left as that same value.
    - A property that may be missing is an [option]; [None] is [undefined].
    - An object used as a dictionary ([results = {}]) is a [Js.Dict]: the
      [gmap] of its own properties, and its prototype when an assignment
      to [__proto__] has replaced it.
    - An [async] function is a computation in [Async]: the list of network
      calls it awaited, and whether it returned or threw.
    - What the network answers is an argument of the probe (an oracle), so
      that the probes are ordinary functions. *)

From Stdlib Require Import ZArith DecimalString.
From stdpp Require Import base option list strings gmap fin_maps.

Local Set Warnings "-clear-no-such-hyp".

Local Open Scope string_scope.
Local Open Scope list_scope.
Local Open Scope Z_scope.

(** ** JavaScript values used by the monitors *)

Module Js.

(** [`${x}`] for a property that is a string or is missing. *)
Definition template (o : option string) : string :=
  match o with
  | Some s => s
  | None => "undefined"
  end.

(** Truthiness of a property that is a string or is missing: [undefined]
    and the empty string are falsy. *)
Definition truthy (o : option string) : bool :=
  match o with
  | Some s => negb (String.eqb s "")
  | None => false
  end.

(** [a || b] on such properties. *)
Definition or_else (a b : option string) : option string :=
  if truthy a then a else b.

(** [`${n}`] for an integral number. *)
Definition number_to_string (n : Z) : string :=
  NilEmpty.string_of_int (Z.to_int n).

(** An [Error] object, with the properties the monitors read. [response]
    is set by axios when it rejects although a response was received;
    [code] is the error code of axios or of the transport. *)
Record Response := { status : Z; statusText : string }.

Record Error := {
  response : option Response;
  code : option string;
  message : string
}.

Definition mkError (msg : string) : Error :=
  {| response := None; code := None; message := msg |}.

(** The [TypeError] of reading a property of [null]. *)
Definition nullRead (prop : string) : Error :=
  mkError ("Cannot read properties of null (reading '" +:+ prop +:+ "')").

(** An object used as a dictionary, [results = {}]: its own properties,
    which are what [JSON.stringify] and [res.json] show of it, and the
    object that an assignment to [__proto__] has made its prototype, if
    any.  Every value stored is an object. *)
Record Dict (V : Type) := { own : gmap string V; proto : option V }.
Arguments own {V} _.
Arguments proto {V} _.

(** [{}]. *)
Definition emptyDict {V : Type} : Dict V := {| own := ∅; proto := None |}.

(** [results[key] = value].  The key [__proto__] names the accessor that
    every object inherits from [Object.prototype]: the assignment replaces
    the prototype of [results] and creates no property.  Any other key
    becomes, or stays, an own property. *)
Definition assign {V : Type} (results : Dict V) (key : string) (value : V) : Dict V :=
  if decide (key = "__proto__")
  then {| own := own results; proto := Some value |}
  else {| own := <[key := value]> (own results); proto := proto results |}.

(** [results !! key] is the own property [key] of [results]: the entry
    that the JSON of the dictionary shows under [key]. *)
#[global] Instance dict_lookup {V : Type} : Lookup string V (Dict V) :=
  fun key results => own results !! key.

End Js.

(** ** Asynchronous computations *)

(** The network calls a probe can await. *)
Inductive NetCall :=
| HttpGet (url : string)
| ShareExists
| ListFilesAndDirectories (path : string)
| GetProperties (file : string).

Inductive Completion (A : Type) :=
| Returned (a : A)
| Raised (e : Js.Error).
Arguments Returned {A} a.
Arguments Raised {A} e.

(** The calls awaited so far, and how the computation ended. *)
Definition Async (A : Type) : Type := list NetCall * Completion A.

Definition ret {A} (a : A) : Async A := ([], Returned a).
Definition throw {A} (e : Js.Error) : Async A := ([], Raised e).

(** [await] of a network call whose answer is [answer]. *)
Definition await {A} (c : NetCall) (answer : Completion A) : Async A :=
  ([c], answer).

Definition bind {A B} (m : Async A) (k : A → Async B) : Async B :=
  match m with
  | (t, Returned a) => let '(t', c) := k a in (t ++ t', c)
  | (t, Raised e) => (t, Raised e)
  end.

(** [try { m } catch (e) { h e }]. *)
Definition try_catch {A} (m : Async A) (h : Js.Error → Async A) : Async A :=
  match m with
  | (t, Returned a) => (t, Returned a)
  | (t, Raised e) => let '(t', c) := h e in (t ++ t', c)
  end.

Definition calls {A} (m : Async A) : list NetCall := fst m.
Definition completion {A} (m : Async A) : Completion A := snd m.

Notation "'let*' x ':=' m 'in' k" := (bind m (fun x => k))
  (at level 10, x pattern, m at level 100, k at level 200).

(** ** websiteMonitor.js *)

Module WebsiteMonitor.

Record Website := { url : string; name : option string }.

Inductive Status := up | down.

Record Result := {
  r_url : string;
  r_name : string;
  r_status : Status;
  r_statusCode : Z;
  r_responseTime : Z;
  r_timestamp : Z;
  r_message : string
}.

(** What becomes of the request.  [Responded]: a response came back and
    axios settles it by [validateStatus].  [Failed]: no response came
    back, the transport failed with an error code and a message.
    [Rejected]: a response came back and axios rejects all the same, for a
    reason other than its status, with the response attached to the
    error. *)
Inductive Wire :=
| Responded (resp : Js.Response)
| Failed (code : option string) (msg : string)
| Rejected (resp : Js.Response) (code : option string) (msg : string).

(** One probe's view of the outside: the three clock readings
    ([Date.now()] on entry, [Date.now()] after the request, [new Date()]
    for the timestamp) and the fate of the request. *)
Record World := {
  startClock : Z;
  wire : Wire;
  endClock : Z;
  stamp : Z
}.

(** [validateStatus: (status) => status < 500]. *)
Definition validateStatus (status : Z) : bool := status <? 500.

(** [axios.get(url, { validateStatus, ... })]: resolves with the response
    when [validateStatus] accepts its status and nothing else goes wrong,
    rejects with an error that carries the response when [validateStatus]
    refuses it or when axios rejects it for another reason, and rejects
    with the transport error when no response arrived. *)
Definition axios_get (u : string) (w : Wire) : Async Js.Response :=
  await (HttpGet u)
    match w with
    | Responded resp =>
        if validateStatus (Js.status resp) then Returned resp
        else Raised {|
          Js.response := Some resp;
          Js.code := Some "ERR_BAD_RESPONSE";
          Js.message := "Request failed with status code "
                        +:+ Js.number_to_string (Js.status resp) |}
    | Failed c msg =>
        Raised {| Js.response := None; Js.code := c; Js.message := msg |}
    | Rejected resp c msg =>
        Raised {| Js.response := Some resp; Js.code := c; Js.message := msg |}
    end.

(** [website.url] where [website] is an element of the configured array:
    an object, or [null]. *)
Definition get_url (website : option Website) : Async string :=
  match website with
  | Some w => ret (url w)
  | None => throw (Js.nullRead "url")
  end.

Definition get_name (website : option Website) : Async (option string) :=
  match website with
  | Some w => ret (name w)
  | None => throw (Js.nullRead "name")
  end.

(** The [if]/[else if] chain of the [catch] block: [(statusCode,
    errorMessage)]. *)
Definition classify (error : Js.Error) : Z * string :=
  match Js.response error with
  | Some resp =>
      (Js.status resp,
       "HTTP " +:+ Js.number_to_string (Js.status resp) +:+ " - " +:+ Js.statusText resp)
  | None =>
      if decide (Js.code error = Some "ECONNABORTED") then (0, "Request timeout")
      else if decide (Js.code error = Some "ENOTFOUND") then (0, "DNS resolution failed")
      else if decide (Js.code error = Some "ECONNREFUSED") then (0, "Connection refused")
      else (0, Js.message error)
  end.

Definition checkWebsite (website : option Website) (env : World) : Async Result :=
  let startTime := startClock env in
  try_catch
    (let* u := get_url website in
     let* response := axios_get u (wire env) in
     let responseTime := endClock env - startTime in
     let* u := get_url website in
     let* n := get_name website in
     ret {| r_url := u;
            r_name := Js.template (Js.or_else n (Some u));
            r_status := up;
            r_statusCode := Js.status response;
            r_responseTime := responseTime;
            r_timestamp := stamp env;
            r_message := "OK - " +:+ Js.number_to_string (Js.status response) |})
    (fun error =>
       let responseTime := endClock env - startTime in
       let '(statusCode, errorMessage) := classify error in
       let* u := get_url website in
       let* n := get_name website in
       ret {| r_url := u;
              r_name := Js.template (Js.or_else n (Some u));
              r_status := down;
              r_statusCode := statusCode;
              r_responseTime := responseTime;
              r_timestamp := stamp env;
              r_message := errorMessage |}).

(** [checkAll]: one task per element of [this.websites]; each task awaits
    its probe and then stores the result under [website.url].  The tasks
    are given in the order in which they complete; [Promise.all] rejects
    with the first rejection, and [results] is returned only when every
    task has fulfilled. *)
Definition task (t : option Website * World) : Async (string * Result) :=
  let* result := checkWebsite (fst t) (snd t) in
  let* key := get_url (fst t) in
  ret (key, result).

Fixpoint settle (completed : list (option Website * World))
    (results : Js.Dict Result) : Completion (Js.Dict Result) :=
  match completed with
  | [] => Returned results
  | t :: rest =>
      match completion (task t) with
      | Returned (key, result) => settle rest (Js.assign results key result)
      | Raised e => Raised e
      end
  end.

Definition checkAll (completed : list (option Website * World))
    : Completion (Js.Dict Result) :=
  settle completed Js.emptyDict.

End WebsiteMonitor.

(** ** The Azure file monitor (class [AzureFileMonitor]) *)

Module AzureFileMonitor.

(** An opaque credential object of the storage SDK. *)
Inductive Credential := SharedKeyCredential (accountKey : string).

Record Storage := {
  accountName : option string;
  shareName : string;
  sasUrl : option string;
  credential : option Credential;
  name : option string;
  directories : option (list string)
}.

(** The remote share as the SDK clients expose it.  A directory client
    lists its children through an asynchronous iterator, which yields
    items and may throw at any point; a file's [getProperties] resolves
    with its [lastModified] date or rejects. *)
Inductive DirectoryClient :=
| Dir (listFilesAndDirectories : Listing)
with Listing :=
| ListEnd
| ListError (e : Js.Error)
| ListItem (item : Item) (rest : Listing)
with Item :=
| file (name : string) (getProperties : Completion Z)
| directory (name : string) (client : DirectoryClient)
| other (name : string).

(** The client of a share, as the SDK builds it for a target.
    [new ShareServiceClient(...)] and [getShareClient] read the URL they
    are given and throw when they cannot: [construction] is [Raised] then,
    and otherwise holds what [exists()] of the client answers.
    [getDirectoryClient(dir)] builds the URL of [dir] below the share and
    throws for a name that does not stay below it, such as [..]:
    [invalid dir] is the error then, and otherwise [getDirectoryClient dir]
    is the client.  The client of the root, [getDirectoryClient('')], has
    the URL of the share and is always built. *)
Record ShareClient := {
  construction : Completion (Completion bool);
  invalid : string → option Js.Error;
  getDirectoryClient : string → DirectoryClient
}.

(** What [exists()] answers for the target, a throw on the way to the
    client included. *)
Definition exists_ (shareClient : ShareClient) : Completion bool :=
  match construction shareClient with
  | Returned answer => answer
  | Raised e => Raised e
  end.

(** [{count, oldestFile, newestFile}]; also the three local variables of
    the traversal. *)
Record Aggregate := {
  count : Z;
  oldestFile : option Z;
  newestFile : option Z
}.

Definition empty : Aggregate :=
  {| count := 0; oldestFile := None; newestFile := None |}.

(** [!d || x < d] and [!d || x > d] for a date variable [d] that is a
    [Date] or [null]. *)
Definition older (x : Z) (d : option Z) : bool :=
  match d with
  | None => true
  | Some y => x <? y
  end.

Definition newer (x : Z) (d : option Z) : bool :=
  match d with
  | None => true
  | Some y => x >? y
  end.

(** Lines 127-132: the two updates from a file's [lastModified]. *)
Definition touch (lastModified : Z) (st : Aggregate) : Aggregate :=
  {| count := count st;
     oldestFile :=
       if older lastModified (oldestFile st) then Some lastModified else oldestFile st;
     newestFile :=
       if newer lastModified (newestFile st) then Some lastModified else newestFile st |}.

(** Lines 140-149: the running aggregate after a subdirectory's result. *)
Definition merge (st subResult : Aggregate) : Aggregate :=
  {| count := count st + count subResult;
     oldestFile :=
       match oldestFile subResult with
       | Some o => if older o (oldestFile st) then Some o else oldestFile st
       | None => oldestFile st
       end;
     newestFile :=
       match newestFile subResult with
       | Some n => if newer n (newestFile st) then Some n else newestFile st
       | None => newestFile st
       end |}.

(** [countFilesRecursively(directoryClient, path)], with the body of its
    [for await] loop as [forAwait].  The result of the recursive call is
    always an object, so the branch for a bare number is never taken. *)
Fixpoint countFilesRecursively (directoryClient : DirectoryClient) (path : string)
    {struct directoryClient} : Async Aggregate :=
  match directoryClient with
  | Dir items =>
      let* _ := await (ListFilesAndDirectories path) (Returned tt) in
      forAwait items path empty
  end
with forAwait (items : Listing) (path : string) (st : Aggregate)
    {struct items} : Async Aggregate :=
  match items with
  | ListEnd => ret st
  | ListError error => throw error
  | ListItem item rest =>
      match item with
      | file name getProperties =>
          let st := {| count := count st + 1;
                       oldestFile := oldestFile st;
                       newestFile := newestFile st |} in
          let* st :=
            try_catch
              (let* lastModified := await (GetProperties name) getProperties in
               ret (touch lastModified st))
              (fun propError => ret st) in
          forAwait rest path st
      | directory name subDirectoryClient =>
          let* subResult :=
            countFilesRecursively subDirectoryClient (path +:+ "/" +:+ name) in
          forAwait rest path (merge st subResult)
      | other _ => forAwait rest path st
      end
  end.

Inductive Status := ok | error.

(** An entry of [directoryBreakdown]: the counts of a directory, or the
    message of the error that stopped its traversal. *)
Inductive Breakdown :=
| counted (count : Z) (oldestFileDate newestFileDate : option Z)
| failed (error : string).

Record Result := {
  r_accountName : option string;
  r_shareName : string;
  r_name : string;
  r_status : Status;
  r_fileCount : Z;
  r_timestamp : Z;
  r_message : string;
  r_directoryBreakdown : option (Js.Dict Breakdown)
}.

(** One probe's view of the outside: the share its client reaches and the
    clock reading of [new Date()]. *)
Record World := { share : ShareClient; now : Z }.

(** [storage.prop] where [storage] is an element of the configured array:
    an object, or [null]. *)
Definition prop {A} (storage : option Storage) (f : Storage → A) (p : string)
    : Async A :=
  match storage with
  | Some s => ret (f s)
  | None => throw (Js.nullRead p)
  end.

(** The object literal shared by the four [return] sites. *)
Definition describe (storage : option Storage) (st : Status) (fileCount : Z)
    (env : World) (msg : string) : Async Result :=
  let* a := prop storage accountName "accountName" in
  let* s := prop storage shareName "shareName" in
  let* n := prop storage name "name" in
  ret {| r_accountName := a;
         r_shareName := s;
         r_name := Js.template (Js.or_else n (Some (Js.template a +:+ "/" +:+ s)));
         r_status := st;
         r_fileCount := fileCount;
         r_timestamp := now env;
         r_message := msg;
         r_directoryBreakdown := None |}.

(** [storage.directories && storage.directories.length > 0]. *)
Definition explicit (dirs : option (list string)) : bool :=
  match dirs with
  | Some (_ :: _) => true
  | _ => false
  end.

(** The [for (const dir of storage.directories)] loop, lines 45-59.  The
    call of [getDirectoryClient] on line 46 stands before the [try] of
    line 47: when it throws, the loop is left. *)
Fixpoint forDirs (shareClient : ShareClient) (dirs : list string)
    (fileCount : Z) (results : Js.Dict Breakdown)
    : Async (Z * Js.Dict Breakdown) :=
  match dirs with
  | [] => ret (fileCount, results)
  | dir :: rest =>
      let* directoryClient :=
        match invalid shareClient dir with
        | Some e => throw e
        | None => ret (getDirectoryClient shareClient dir)
        end in
      let* counted_so_far :=
        try_catch
          (let* dirResult := countFilesRecursively directoryClient dir in
           ret (fileCount + count dirResult,
                Js.assign results dir
                  (counted (count dirResult) (oldestFile dirResult)
                     (newestFile dirResult))))
          (fun dirError =>
             ret (fileCount, Js.assign results dir (failed (Js.message dirError)))) in
      forDirs shareClient rest (fst counted_so_far) (snd counted_so_far)
  end.

(** [new ShareServiceClient(...).getShareClient(storage.shareName)], on
    lines 14 and 17-21: the client, or the throw of a constructor. *)
Definition newShareClient (env : World) : Async ShareClient :=
  match construction (share env) with
  | Returned _ => ret (share env)
  | Raised e => throw e
  end.

(** Lines 10-24: the client of the share, from the SAS URL or from the
    credential. *)
Definition resolveShareClient (storage : option Storage) (env : World)
    : Async ShareClient :=
  let* sas := prop storage sasUrl "sasUrl" in
  if Js.truthy sas then newShareClient env
  else
    let* cred := prop storage credential "credential" in
    match cred with
    | Some _ => newShareClient env
    | None => throw (Js.mkError "Either sasUrl or credential must be provided")
    end.

(** Lines 39-78: the inner [try] block, which counts the files, and its
    [catch], which returns an error result. *)
Definition countFiles (storage : option Storage) (env : World)
    (shareClient : ShareClient)
    : Async (Z * Js.Dict Breakdown + Result) :=
  try_catch
    (let* dirs := prop storage directories "directories" in
     let* r :=
       if explicit dirs then forDirs shareClient (default [] dirs) 0 Js.emptyDict
       else
         let directoryClient := getDirectoryClient shareClient "" in
         let* result := countFilesRecursively directoryClient "" in
         ret (count result, Js.emptyDict) in
     ret (inl r))
    (fun err =>
       let* r := describe storage error 0 env (Js.message err) in
       ret (inr r)).

(** Lines 26-96: the outer [try] block once the client is resolved. *)
Definition probeShare (storage : option Storage) (env : World)
    (shareClient : ShareClient) : Async Result :=
  let* shareExists := await ShareExists (exists_ shareClient) in
  if negb shareExists then describe storage error 0 env "Share does not exist"
  else
    let* counting := countFiles storage env shareClient in
    match counting with
    | inr errorResult => ret errorResult
    | inl (fileCount, results) =>
        let* response :=
          describe storage ok fileCount env
            (Js.number_to_string fileCount +:+ " files found") in
        let* dirs := prop storage directories "directories" in
        if explicit dirs then
          ret {| r_accountName := r_accountName response;
                 r_shareName := r_shareName response;
                 r_name := r_name response;
                 r_status := r_status response;
                 r_fileCount := r_fileCount response;
                 r_timestamp := r_timestamp response;
                 r_message :=
                   Js.number_to_string fileCount +:+ " files found across "
                   +:+ Js.number_to_string (Z.of_nat (length (default [] dirs)))
                   +:+ " directories";
                 r_directoryBreakdown := Some results |}
        else ret response
    end.

Definition checkFileStorage (storage : option Storage) (env : World) : Async Result :=
  try_catch
    (let* shareClient := resolveShareClient storage env in
     probeShare storage env shareClient)
    (fun err => describe storage error 0 env (Js.message err)).

(** The key under which [checkAll] stores a result. *)
Definition key (storage : Storage) : string :=
  if Js.truthy (accountName storage)
  then Js.template (accountName storage) +:+ "/" +:+ shareName storage
  else Js.template (Js.or_else (name storage) (sasUrl storage)).

(** [checkAll], as for the website monitor. *)
Definition task (t : option Storage * World) : Async (string * Result) :=
  let* result := checkFileStorage (fst t) (snd t) in
  let* k := prop (fst t) key "accountName" in
  ret (k, result).

Fixpoint settle (completed : list (option Storage * World))
    (results : Js.Dict Result) : Completion (Js.Dict Result) :=
  match completed with
  | [] => Returned results
  | t :: rest =>
      match completion (task t) with
      | Returned (k, result) => settle rest (Js.assign results k result)
      | Raised e => Raised e
      end
  end.

Definition checkAll (completed : list (option Storage * World))
    : Completion (Js.Dict Result) :=
  settle completed Js.emptyDict.

End AzureFileMonitor.

(** ** server.js: the monitoring cycle *)

Module Server.

Record MonitoringResults := {
  websites : Js.Dict WebsiteMonitor.Result;
  azureFiles : Js.Dict AzureFileMonitor.Result;
  lastUpdate : option Z
}.

(** [let monitoringResults = { websites: {}, azureFiles: {}, lastUpdate: null }]. *)
Definition initial : MonitoringResults :=
  {| websites := Js.emptyDict; azureFiles := Js.emptyDict; lastUpdate := None |}.

(** [runMonitoring]: the new value of the global [monitoringResults].  The
    [catch] logs the error and leaves the global as it was. *)
Definition runMonitoring (monitoringResults : MonitoringResults)
    (websiteTasks : list (option WebsiteMonitor.Website * WebsiteMonitor.World))
    (azureTasks : list (option AzureFileMonitor.Storage * AzureFileMonitor.World))
    (clock : Z) : MonitoringResults :=
  match WebsiteMonitor.checkAll websiteTasks with
  | Raised _ => monitoringResults
  | Returned websiteResults =>
      match AzureFileMonitor.checkAll azureTasks with
      | Raised _ => monitoringResults
      | Returned azureFileResults =>
          {| websites := websiteResults;
             azureFiles := azureFileResults;
             lastUpdate := Some clock |}
      end
  end.

End Server.

(** ** server.js: authentication and the configuration routes *)

Module App.

(** The character [' ']. *)
Definition space : Ascii.ascii := Ascii.ascii_of_nat 32.

(** [s.split(c)] for a one-character separator [c]. *)
Fixpoint split (c : Ascii.ascii) (s : string) : list string :=
  match s with
  | EmptyString => [EmptyString]
  | String a rest =>
      if Ascii.eqb a c then EmptyString :: split c rest
      else
        match split c rest with
        | piece :: pieces => String a piece :: pieces
        | [] => [String a EmptyString]
        end
  end.

(** The three variables read from [process.env], and the constants made
    of them with their defaults. *)
Record ProcessEnv := {
  env_ADMIN_USERNAME : option string;
  env_ADMIN_PASSWORD : option string;
  env_JWT_SECRET : option string
}.

Definition ADMIN_USERNAME (env : ProcessEnv) : string :=
  Js.template (Js.or_else (env_ADMIN_USERNAME env) (Some "admin")).

Definition ADMIN_PASSWORD (env : ProcessEnv) : string :=
  Js.template (Js.or_else (env_ADMIN_PASSWORD env) (Some "admin123")).

Definition JWT_SECRET (env : ProcessEnv) : string :=
  Js.template (Js.or_else (env_JWT_SECRET env)
                 (Some "your-secret-key-change-in-production")).

(** The two functions of the [jsonwebtoken] library that the server calls,
    as they answer at the time of a request: [sign] of the payload
    [{username}] with a secret, and [verify] of a token with a secret,
    which gives the decoded payload or fails. *)
Record Jwt := {
  sign : string → string → string;
  verify : string → string → option string
}.

(** The configuration object loaded from [config.json].  An element of a
    list is an object or [null]. *)
Record Config := {
  websites : option (list (option WebsiteMonitor.Website));
  azureFileStorages : option (list (option AzureFileMonitor.Storage))
}.

(** The array a monitor was constructed with: the very array that
    [config] holds, so that a change of that array is seen through the
    monitor, or an array of its own. *)
Inductive Held (A : Type) :=
| SameArray
| OwnArray (elements : list A).
Arguments SameArray {A}.
Arguments OwnArray {A} elements.

(** The globals [config], [websiteMonitor] and [azureFileMonitor], and the
    configuration last written to [config.json]. *)
Record State := {
  config : Config;
  websiteMonitor : Held (option WebsiteMonitor.Website);
  azureFileMonitor : Held (option AzureFileMonitor.Storage);
  configFile : Config
}.

(** [this.websites] and [this.storageAccounts] of the current monitors. *)
Definition monitoredWebsites (st : State) : list (option WebsiteMonitor.Website) :=
  match websiteMonitor st with
  | SameArray => default [] (websites (config st))
  | OwnArray l => l
  end.

Definition monitoredStorages (st : State) : list (option AzureFileMonitor.Storage) :=
  match azureFileMonitor st with
  | SameArray => default [] (azureFileStorages (config st))
  | OwnArray l => l
  end.

(** [new Monitor(list || [])]. *)
Definition hold {A} (l : option (list A)) : Held A :=
  match l with
  | Some _ => SameArray
  | None => OwnArray []
  end.

(** The state once the module is loaded. *)
Definition start (loaded : Config) : State :=
  {| config := loaded;
     websiteMonitor := hold (websites loaded);
     azureFileMonitor := hold (azureFileStorages loaded);
     configFile := loaded |}.

Definition restartMonitoring (st : State) : State :=
  {| config := config st;
     websiteMonitor := hold (websites (config st));
     azureFileMonitor := hold (azureFileStorages (config st));
     configFile := configFile st |}.

(** The JSON bodies the routes answer with; [failure] is the answer of
    the framework to a handler that threw. *)
Inductive Body :=
| errorBody (error : string)
| loginBody (message token expiresIn : string)
| validBody (user : string)
| websiteList (l : list (option string * string))
| storageList (l : list (option string * string * list string))
| websiteAdded (message : string) (website : WebsiteMonitor.Website)
| storageAdded (message : string) (name shareName : string)
    (directories : option (list string))
| websiteRemoved (message : string) (website : option (option WebsiteMonitor.Website))
| storageRemoved (message : string) (name : option string) (shareName : string)
| failure (e : Js.Error).

Record Reply := { statusCode : Z; body : Body }.

Definition json (b : Body) : Reply := {| statusCode := 200; body := b |}.
Definition status (code : Z) (b : Body) : Reply := {| statusCode := code; body := b |}.

(** [authenticateToken]: the reply it sends itself, or the user it hands
    to the next handler. *)
Definition authenticateToken (jwt : Jwt) (env : ProcessEnv)
    (authHeader : option string) : Reply + string :=
  let token :=
    if Js.truthy authHeader then split space (Js.template authHeader) !! 1%nat
    else authHeader in
  if negb (Js.truthy token) then inl (status 401 (errorBody "Access token required"))
  else
    match verify jwt (Js.template token) (JWT_SECRET env) with
    | None => inl (status 403 (errorBody "Invalid or expired token"))
    | Some user => inr user
    end.

(** [app.post('/login', ...)]. *)
Definition login (jwt : Jwt) (env : ProcessEnv) (username password : option string)
    : Reply :=
  if negb (Js.truthy username) || negb (Js.truthy password)
  then status 400 (errorBody "Username and password required")
  else if String.eqb (Js.template username) (ADMIN_USERNAME env)
          && String.eqb (Js.template password) (ADMIN_PASSWORD env)
  then json (loginBody "Login successful"
               (sign jwt (Js.template username) (JWT_SECRET env)) "24h")
  else status 401 (errorBody "Invalid credentials").

(** [app.get('/config/websites', ...)]: reading a property of a [null]
    element throws. *)
Definition getWebsites (st : State) : Reply :=
  match websites (config st) with
  | None => json (websiteList [])
  | Some l =>
      match mapM (fun w => (fun o => (WebsiteMonitor.name o, WebsiteMonitor.url o)) <$> w) l with
      | Some safeWebsites => json (websiteList safeWebsites)
      | None => status 500 (failure (Js.nullRead "name"))
      end
  end.

(** [app.get('/config/azure-storages', ...)]. *)
Definition getStorages (st : State) : Reply :=
  match azureFileStorages (config st) with
  | None => json (storageList [])
  | Some l =>
      match mapM (fun s => (fun o => (AzureFileMonitor.name o,
                                       AzureFileMonitor.shareName o,
                                       default [] (AzureFileMonitor.directories o))) <$> s) l with
      | Some safeStorages => json (storageList safeStorages)
      | None => status 500 (failure (Js.nullRead "name"))
      end
  end.

(** What follows the change of [config] in the four routes that change
    it: [writeFileSync], which returns or throws as [disk] says, then
    [restartMonitoring], then the reply. *)
Definition persist (disk : Completion unit) (st : State) (reply : Reply)
    : State * Reply :=
  match disk with
  | Raised e => (st, status 500 (failure e))
  | Returned _ =>
      (restartMonitoring
         {| config := config st;
            websiteMonitor := websiteMonitor st;
            azureFileMonitor := azureFileMonitor st;
            configFile := config st |},
       reply)
  end.

(** [app.post('/config/websites', ...)]. *)
Definition postWebsite (disk : Completion unit) (st : State)
    (name url : option string) : State * Reply :=
  if negb (Js.truthy name) || negb (Js.truthy url)
  then (st, status 400 (errorBody "Name and URL are required"))
  else
    let newWebsite :=
      {| WebsiteMonitor.url := Js.template url; WebsiteMonitor.name := name |} in
    let pushed :=
      {| config :=
           {| websites := Some (default [] (websites (config st)) ++ [Some newWebsite]);
              azureFileStorages := azureFileStorages (config st) |};
         websiteMonitor := websiteMonitor st;
         azureFileMonitor := azureFileMonitor st;
         configFile := configFile st |} in
    persist disk pushed (json (websiteAdded "Website added successfully" newWebsite)).

(** [app.post('/config/azure-storages', ...)]. *)
Definition postStorage (disk : Completion unit) (st : State)
    (name shareName sasUrl : option string) (directories : option (list string))
    : State * Reply :=
  if negb (Js.truthy name) || negb (Js.truthy shareName) || negb (Js.truthy sasUrl)
  then (st, status 400 (errorBody "Name, shareName, and sasUrl are required"))
  else
    let newStorage :=
      {| AzureFileMonitor.accountName := None;
         AzureFileMonitor.shareName := Js.template shareName;
         AzureFileMonitor.sasUrl := sasUrl;
         AzureFileMonitor.credential := None;
         AzureFileMonitor.name := name;
         AzureFileMonitor.directories := Some (default [] directories) |} in
    let pushed :=
      {| config :=
           {| websites := websites (config st);
              azureFileStorages :=
                Some (default [] (azureFileStorages (config st)) ++ [Some newStorage]) |};
         websiteMonitor := websiteMonitor st;
         azureFileMonitor := azureFileMonitor st;
         configFile := configFile st |} in
    persist disk pushed
      (json (storageAdded "Azure storage added successfully"
               (Js.template name) (Js.template shareName) directories)).

(** [index < 0], for [index] the value of [parseInt]: an integer, or
    [NaN], of which every comparison is false. *)
Definition negative (index : option Z) : bool :=
  match index with
  | Some i => i <? 0
  | None => false
  end.

(** [index >= length]. *)
Definition beyond (index : option Z) (length : nat) : bool :=
  match index with
  | Some i => i >=? Z.of_nat length
  | None => false
  end.

(** Where [splice(index, 1)] starts, for an index that is not negative:
    [NaN] counts as 0. *)
Definition spliceStart (index : option Z) : nat :=
  match index with
  | Some i => Z.to_nat i
  | None => 0
  end.

Definition undefinedRead (p : string) : Js.Error :=
  Js.mkError ("Cannot read properties of undefined (reading '" +:+ p +:+ "')").

(** [app.delete('/config/websites/:index', ...)]. *)
Definition deleteWebsite (disk : Completion unit) (st : State) (index : option Z)
    : State * Reply :=
  if negative index then (st, status 404 (errorBody "Website not found"))
  else
    match websites (config st) with
    | None => (st, status 500 (failure (undefinedRead "length")))
    | Some l =>
        if beyond index (length l)
        then (st, status 404 (errorBody "Website not found"))
        else
          let removed := l !! spliceStart index in
          let spliced :=
            {| config :=
                 {| websites := Some (delete (spliceStart index) l);
                    azureFileStorages := azureFileStorages (config st) |};
               websiteMonitor := websiteMonitor st;
               azureFileMonitor := azureFileMonitor st;
               configFile := configFile st |} in
          persist disk spliced
            (json (websiteRemoved "Website removed successfully" removed))
    end.

(** [app.delete('/config/azure-storages/:index', ...)]: the reply reads
    [removed.name], which throws when nothing was removed or when the
    removed element is [null]. *)
Definition deleteStorage (disk : Completion unit) (st : State) (index : option Z)
    : State * Reply :=
  if negative index then (st, status 404 (errorBody "Storage not found"))
  else
    match azureFileStorages (config st) with
    | None => (st, status 500 (failure (undefinedRead "length")))
    | Some l =>
        if beyond index (length l)
        then (st, status 404 (errorBody "Storage not found"))
        else
          let removed := l !! spliceStart index in
          let spliced :=
            {| config :=
                 {| websites := websites (config st);
                    azureFileStorages := Some (delete (spliceStart index) l) |};
               websiteMonitor := websiteMonitor st;
               azureFileMonitor := azureFileMonitor st;
               configFile := configFile st |} in
          persist disk spliced
            match removed with
            | Some (Some s) =>
                json (storageRemoved "Storage removed successfully"
                        (AzureFileMonitor.name s) (AzureFileMonitor.shareName s))
            | Some None => status 500 (failure (Js.nullRead "name"))
            | None => status 500 (failure (undefinedRead "name"))
            end
    end.

(** The requests to the routes above. *)
Inductive Route :=
| PostLogin (username password : option string)
| GetValidateToken
| GetConfigWebsites
| GetConfigStorages
| PostConfigWebsite (name url : option string)
| PostConfigStorage (name shareName sasUrl : option string)
    (directories : option (list string))
| DeleteConfigWebsite (index : option Z)
| DeleteConfigStorage (index : option Z).

Record Request := { authorization : option string; route : Route }.

(** The handler of a route, for a request that [authenticateToken] let
    through as [user]; [/login] has no use for it. *)
Definition handle (jwt : Jwt) (env : ProcessEnv) (disk : Completion unit)
    (st : State) (user : string) (r : Route) : State * Reply :=
  match r with
  | PostLogin username password => (st, login jwt env username password)
  | GetValidateToken => (st, json (validBody user))
  | GetConfigWebsites => (st, getWebsites st)
  | GetConfigStorages => (st, getStorages st)
  | PostConfigWebsite name url => postWebsite disk st name url
  | PostConfigStorage name shareName sasUrl directories =>
      postStorage disk st name shareName sasUrl directories
  | DeleteConfigWebsite index => deleteWebsite disk st index
  | DeleteConfigStorage index => deleteStorage disk st index
  end.

(** The routing: [/login] is open, every other route above goes through
    [authenticateToken] first. *)
Definition serve (jwt : Jwt) (env : ProcessEnv) (disk : Completion unit)
    (st : State) (req : Request) : State * Reply :=
  match route req with
  | PostLogin username password => (st, login jwt env username password)
  | r =>
      match authenticateToken jwt env (authorization req) with
      | inl reply => (st, reply)
      | inr user => handle jwt env disk st user r
      end
  end.

End App.

(** * Definitions of the specification *)

(** ** The combination rule of the specification *)

Module Combination.
Import AzureFileMonitor.

(** The combination rule in the words of the specification: counts add,
    the oldest dates combine by minimum and the newest by maximum, and
    [null] stands for no date. *)
Definition absent_or (f : Z → Z → Z) (a b : option Z) : option Z :=
  match a, b with
  | Some x, Some y => Some (f x y)
  | Some x, None => Some x
  | None, _ => b
  end.

Definition combine (a b : Aggregate) : Aggregate :=
  {| count := count a + count b;
     oldestFile := absent_or Z.min (oldestFile a) (oldestFile b);
     newestFile := absent_or Z.max (newestFile a) (newestFile b) |}.

End Combination.

(** ** Directory trees *)

Module Tree.
Import AzureFileMonitor.

Scheme client_mut := Induction for DirectoryClient Sort Prop
  with listing_mut := Induction for Listing Sort Prop
  with item_mut := Induction for Item Sort Prop.

(** The number of items of kind ['file'] below a directory. *)
Fixpoint filesIn (d : DirectoryClient) : Z :=
  match d with
  | Dir items => filesAmong items
  end
with filesAmong (items : Listing) : Z :=
  match items with
  | ListEnd => 0
  | ListError _ => 0
  | ListItem item rest =>
      match item with
      | file _ _ => 1 + filesAmong rest
      | directory _ sub => filesIn sub + filesAmong rest
      | other _ => filesAmong rest
      end
  end.

(** Every listing below the directory runs to its end without an error. *)
Fixpoint listable (d : DirectoryClient) : bool :=
  match d with
  | Dir items => listableItems items
  end
with listableItems (items : Listing) : bool :=
  match items with
  | ListEnd => true
  | ListError _ => false
  | ListItem item rest =>
      match item with
      | directory _ sub => listable sub && listableItems rest
      | _ => listableItems rest
      end
  end.

(** The same tree with the items of some listings enumerated in another
    order, at any depth. *)
Inductive reordered : DirectoryClient → DirectoryClient → Prop :=
| reordered_Dir l l' : reorderedItems l l' → reordered (Dir l) (Dir l')
with reorderedItems : Listing → Listing → Prop :=
| reordered_end : reorderedItems ListEnd ListEnd
| reordered_file n p l l' :
    reorderedItems l l' →
    reorderedItems (ListItem (file n p) l) (ListItem (file n p) l')
| reordered_directory n d d' l l' :
    reordered d d' → reorderedItems l l' →
    reorderedItems (ListItem (directory n d) l) (ListItem (directory n d') l')
| reordered_other n l l' :
    reorderedItems l l' →
    reorderedItems (ListItem (other n) l) (ListItem (other n) l')
| reordered_swap i j l l' :
    reorderedItems l l' →
    reorderedItems (ListItem i (ListItem j l)) (ListItem j (ListItem i l'))
| reordered_trans l1 l2 l3 :
    reorderedItems l1 l2 → reorderedItems l2 l3 → reorderedItems l1 l3.

Scheme reordered_mut := Minimality for reordered Sort Prop
  with reorderedItems_mut := Minimality for reorderedItems Sort Prop.

(** What the date variables and the counter satisfy throughout. *)
Definition wellFormed (a : Aggregate) : Prop :=
  0 ≤ count a ∧
  (oldestFile a = None ↔ newestFile a = None) ∧
  (∀ o n, oldestFile a = Some o → newestFile a = Some n → o ≤ n).

(** A directory with two files at the top and a subdirectory [logs] that
    holds one file and an empty subdirectory; and the same directory with
    its listings in another order. *)
Definition sampleTree : DirectoryClient :=
  Dir (ListItem (file "a.txt" (Returned 100))
      (ListItem (directory "logs"
                   (Dir (ListItem (file "x.log" (Returned 50))
                        (ListItem (directory "old" (Dir ListEnd)) ListEnd))))
      (ListItem (file "b.txt" (Raised (Js.mkError "properties unavailable")))
       ListEnd))).

Definition sampleTreeReordered : DirectoryClient :=
  Dir (ListItem (directory "logs"
                   (Dir (ListItem (directory "old" (Dir ListEnd))
                        (ListItem (file "x.log" (Returned 50)) ListEnd))))
      (ListItem (file "a.txt" (Returned 100))
      (ListItem (file "b.txt" (Raised (Js.mkError "properties unavailable")))
       ListEnd))).

End Tree.

(** ** Outcomes of the endpoint probe *)

Module Endpoint.
Import WebsiteMonitor.

(** The causes of a failed probe, in the words of the specification. *)
Inductive Cause :=
| RemoteErrorResponse (code : Z) (reason : string)
| Timeout
| NameResolutionFailure
| ConnectionRefused
| Generic (msg : string).

(** The response that came back, if one did. *)
Definition received (w : Wire) : option Js.Response :=
  match w with
  | Responded resp => Some resp
  | Failed _ _ => None
  | Rejected resp _ _ => Some resp
  end.

(** The cause of a request's failure, read off the wire.  An error that
    carries a response is an error response: one that [validateStatus]
    refused, with a status of 500 or more, or one of any status that axios
    rejected for another reason. *)
Inductive failure : Wire → Cause → Prop :=
| failure_remote resp :
    500 ≤ Js.status resp →
    failure (Responded resp) (RemoteErrorResponse (Js.status resp) (Js.statusText resp))
| failure_rejected resp c msg :
    failure (Rejected resp c msg)
      (RemoteErrorResponse (Js.status resp) (Js.statusText resp))
| failure_timeout msg :
    failure (Failed (Some "ECONNABORTED") msg) Timeout
| failure_resolution msg :
    failure (Failed (Some "ENOTFOUND") msg) NameResolutionFailure
| failure_refused msg :
    failure (Failed (Some "ECONNREFUSED") msg) ConnectionRefused
| failure_generic c msg :
    c ≠ Some "ECONNABORTED" → c ≠ Some "ENOTFOUND" → c ≠ Some "ECONNREFUSED" →
    failure (Failed c msg) (Generic msg).

Definition messageOf (c : Cause) : string :=
  match c with
  | RemoteErrorResponse code reason =>
      "HTTP " +:+ Js.number_to_string code +:+ " - " +:+ reason
  | Timeout => "Request timeout"
  | NameResolutionFailure => "DNS resolution failed"
  | ConnectionRefused => "Connection refused"
  | Generic msg => msg
  end.

Definition statusCodeOf (c : Cause) : Z :=
  match c with
  | RemoteErrorResponse code _ => code
  | _ => 0
  end.

(** The result of probing an object, by cases on the request's fate. *)
Definition outcome (w : Website) (env : World) : Result :=
  match completion (axios_get (url w) (wire env)) with
  | Returned resp =>
      {| r_url := url w;
         r_name := Js.template (Js.or_else (name w) (Some (url w)));
         r_status := up;
         r_statusCode := Js.status resp;
         r_responseTime := endClock env - startClock env;
         r_timestamp := stamp env;
         r_message := "OK - " +:+ Js.number_to_string (Js.status resp) |}
  | Raised err =>
      {| r_url := url w;
         r_name := Js.template (Js.or_else (name w) (Some (url w)));
         r_status := down;
         r_statusCode := (classify err).1;
         r_responseTime := endClock env - startClock env;
         r_timestamp := stamp env;
         r_message := (classify err).2 |}
  end.

(** The example of the specification: HTTP 200 after 120 ms. *)
Definition okExample : Website := {| url := "https://ok.example"; name := None |}.

Definition okWorld : World :=
  {| startClock := 1700000000000;
     wire := Responded {| Js.status := 200; Js.statusText := "OK" |};
     endClock := 1700000000120;
     stamp := 1700000000121 |}.

(** The same request, when the 200 response comes back and axios rejects
    all the same. *)
Definition rejectedWorld : World :=
  {| startClock := 1700000000000;
     wire := Rejected {| Js.status := 200; Js.statusText := "OK" |}
               (Some "ERR_BAD_RESPONSE") "stream has been aborted";
     endClock := 1700000000120;
     stamp := 1700000000121 |}.

End Endpoint.

(** ** Outcomes of the store probe *)

Module Store.
Import AzureFileMonitor.

(** How the traversal of one requested directory ends. *)
Definition traversal (shareClient : ShareClient) (dir : string) : Completion Aggregate :=
  completion (countFilesRecursively (getDirectoryClient shareClient dir) dir).

(** The count a requested directory contributes: its own when its
    traversal succeeded, nothing otherwise. *)
Definition contribution (shareClient : ShareClient) (dir : string) : Z :=
  match traversal shareClient dir with
  | Returned agg => count agg
  | Raised _ => 0
  end.

(** The entry of a requested directory in the breakdown. *)
Definition entryOf (shareClient : ShareClient) (dir : string) : Breakdown :=
  match traversal shareClient dir with
  | Returned agg => counted (count agg) (oldestFile agg) (newestFile agg)
  | Raised e => failed (Js.message e)
  end.

Definition sumZ (l : list Z) : Z := foldr Z.add 0 l.

Definition record (shareClient : ShareClient) (results : Js.Dict Breakdown)
    (dir : string) : Js.Dict Breakdown :=
  Js.assign results dir (entryOf shareClient dir).

(** The error of the first requested directory whose client cannot be
    built, and the requested directories before that one. *)
Fixpoint firstInvalid (shareClient : ShareClient) (dirs : list string)
    : option Js.Error :=
  match dirs with
  | [] => None
  | dir :: rest =>
      match invalid shareClient dir with
      | Some e => Some e
      | None => firstInvalid shareClient rest
      end
  end.

Fixpoint reached (shareClient : ShareClient) (dirs : list string) : list string :=
  match dirs with
  | [] => []
  | dir :: rest =>
      match invalid shareClient dir with
      | Some _ => []
      | None => dir :: reached shareClient rest
      end
  end.

(** The result object for an element that is an object. *)
Definition resultOf (storage : Storage) (st : Status) (fileCount : Z) (env : World)
    (msg : string) (breakdown : option (Js.Dict Breakdown)) : Result :=
  {| r_accountName := accountName storage;
     r_shareName := shareName storage;
     r_name := Js.template (Js.or_else (name storage)
                 (Some (Js.template (accountName storage) +:+ "/" +:+ shareName storage)));
     r_status := st;
     r_fileCount := fileCount;
     r_timestamp := now env;
     r_message := msg;
     r_directoryBreakdown := breakdown |}.

(** The target supplies one of the two access modes. *)
Definition hasAccess (storage : Storage) : bool :=
  Js.truthy (sasUrl storage) || bool_decide (is_Some (credential storage)).

(** What the probe returns once the share is known to exist. *)
Definition counted_result (storage : Storage) (env : World) (shareClient : ShareClient)
    : Result :=
  if explicit (directories storage) then
    let dirs := default [] (directories storage) in
    let fileCount := sumZ (contribution shareClient <$> dirs) in
    match firstInvalid shareClient dirs with
    | Some e => resultOf storage error 0 env (Js.message e) None
    | None =>
        resultOf storage ok fileCount env
          (Js.number_to_string fileCount +:+ " files found across "
           +:+ Js.number_to_string (Z.of_nat (length dirs)) +:+ " directories")
          (Some (foldl (record shareClient) Js.emptyDict dirs))
    end
  else
    match traversal shareClient "" with
    | Returned agg =>
        resultOf storage ok (count agg) env
          (Js.number_to_string (count agg) +:+ " files found") None
    | Raised e => resultOf storage error 0 env (Js.message e) None
    end.

(** The result of probing an object, by cases. *)
Definition outcome (storage : Storage) (env : World) : Result :=
  if hasAccess storage then
    match exists_ (share env) with
    | Raised e => resultOf storage error 0 env (Js.message e) None
    | Returned false => resultOf storage error 0 env "Share does not exist" None
    | Returned true => counted_result storage env (share env)
    end
  else resultOf storage error 0 env
         "Either sasUrl or credential must be provided" None.

(** A target with no access mode, and a share that would answer. *)
Definition bareTarget : Storage :=
  {| accountName := Some "acct"; shareName := "docs"; sasUrl := None;
     credential := None; name := None; directories := Some ["a"] |}.

Definition twoFiles : DirectoryClient :=
  Dir (ListItem (file "one" (Returned 10)) (ListItem (file "two" (Returned 20)) ListEnd)).

Definition unlistable : DirectoryClient :=
  Dir (ListError (Js.mkError "The specified resource does not exist.")).

(** The share of the examples: its root holds three files and an empty
    subdirectory. *)
Definition sampleRoot : DirectoryClient :=
  Dir (ListItem (file "r1" (Returned 1))
      (ListItem (directory "empty" (Dir ListEnd))
      (ListItem (file "r2" (Returned 2))
      (ListItem (file "r3" (Returned 3)) ListEnd)))).

(** The share of the examples exists; a client for the name [..] cannot
    be built. *)
Definition sampleShare : ShareClient :=
  {| construction := Returned (Returned true);
     invalid := fun dir =>
       if String.eqb dir ".."
       then Some (Js.mkError
                    "Unable to extract shareName and path with provided information.")
       else None;
     getDirectoryClient := fun dir =>
       if String.eqb dir "" then sampleRoot
       else if String.eqb dir "a" then twoFiles
       else if String.eqb dir "b" then unlistable
       else if String.eqb dir "c" then Tree.sampleTree
       else Dir ListEnd |}.

Definition sampleWorld : World := {| share := sampleShare; now := 1700000000000 |}.

(** The example of the specification, with a third directory: [a] holds
    two files, [b] fails to list, [c] holds three files. *)
Definition listedTarget : Storage :=
  {| accountName := Some "acct"; shareName := "docs";
     sasUrl := Some "https://acct.file.core.windows.net/?sv=1";
     credential := None; name := None; directories := Some ["a"; "b"; "c"] |}.

(** The targets of the two store examples of the specification: the whole
    share, and the directories [a] and [b]. *)
Definition wholeShare : Storage :=
  {| accountName := Some "acct"; shareName := "docs";
     sasUrl := Some "https://acct.file.core.windows.net/?sv=1";
     credential := None; name := None; directories := None |}.

Definition twoListed : Storage :=
  {| accountName := Some "acct"; shareName := "docs";
     sasUrl := Some "https://acct.file.core.windows.net/?sv=1";
     credential := None; name := None; directories := Some ["a"; "b"] |}.

(** A world in which the share does not exist. *)
Definition missingShare : World :=
  {| share := {| construction := Returned (Returned false);
                 invalid := fun _ => None;
                 getDirectoryClient := fun _ => Dir ListEnd |};
     now := 1700000000000 |}.

(** A target whose SAS URL is not a URL, as the configuration endpoint
    adds it, and a world in which the SDK refuses that URL. *)
Definition malformedTarget : Storage :=
  {| accountName := None; shareName := "docs"; sasUrl := Some "x";
     credential := None; name := Some "Docs"; directories := Some [] |}.

Definition refusedUrl : World :=
  {| share := {| construction := Raised (Js.mkError "Invalid URL");
                 invalid := fun _ => None;
                 getDirectoryClient := fun _ => Dir ListEnd |};
     now := 1700000000000 |}.

(** Two targets of the share of the examples: one lists the name [..]
    between [a] and [c], the other lists only [__proto__]. *)
Definition escapingTarget : Storage :=
  {| accountName := Some "acct"; shareName := "docs";
     sasUrl := Some "https://acct.file.core.windows.net/?sv=1";
     credential := None; name := None; directories := Some ["a"; ".."; "c"] |}.

Definition protoListed : Storage :=
  {| accountName := Some "acct"; shareName := "docs";
     sasUrl := Some "https://acct.file.core.windows.net/?sv=1";
     credential := None; name := None; directories := Some ["a"; "__proto__"] |}.

End Store.

(** ** Results stored by [checkAll] *)

(** An element of the configured array that is an object. *)
Definition object {T W : Type} (t : T * W) : option T * W := (Some t.1, t.2).

(** [results[key] = result]. *)
Definition store {R : Type} (results : Js.Dict R) (kv : string * R)
    : Js.Dict R :=
  Js.assign results kv.1 kv.2.

(** The key and the result a target object contributes. *)
Definition entry {T W R : Type} (key : T → string) (probe : T → W → R)
    (t : T * W) : string * R :=
  (key t.1, probe t.1 t.2).

(** ** Sample configurations *)

Module Samples.

(** A second website, which refuses connections, and a second store,
    added the way the configuration endpoint adds one: a name, a share
    and a SAS URL, no account name. *)
Definition refusing : WebsiteMonitor.Website :=
  {| WebsiteMonitor.url := "https://down.example"; WebsiteMonitor.name := Some "Down" |}.

Definition refusedWorld : WebsiteMonitor.World :=
  {| WebsiteMonitor.startClock := 1700000000000;
     WebsiteMonitor.wire := WebsiteMonitor.Failed (Some "ECONNREFUSED") "connect ECONNREFUSED";
     WebsiteMonitor.endClock := 1700000000004;
     WebsiteMonitor.stamp := 1700000000005 |}.

Definition namedTarget : AzureFileMonitor.Storage :=
  {| AzureFileMonitor.accountName := None;
     AzureFileMonitor.shareName := "backups";
     AzureFileMonitor.sasUrl := Some "https://acct.file.core.windows.net/?sv=2";
     AzureFileMonitor.credential := None;
     AzureFileMonitor.name := Some "Backups";
     AzureFileMonitor.directories := Some [] |}.

Definition sampleWebsites :=
  [(Endpoint.okExample, Endpoint.okWorld); (refusing, refusedWorld)].

(** A website as the configuration endpoint accepts it, with the URL
    [__proto__]. *)
Definition protoWebsite : WebsiteMonitor.Website :=
  {| WebsiteMonitor.url := "__proto__"; WebsiteMonitor.name := Some "Proto" |}.

Definition sampleStorages :=
  [(Store.listedTarget, Store.sampleWorld);
   (namedTarget, Store.sampleWorld)].

End Samples.

(** ** What a traversal meets *)

Module Walk.
Import AzureFileMonitor.

(** The [lastModified] dates the traversal obtains, in the order in which
    it meets the files: one for every file whose [getProperties]
    resolves. *)
Fixpoint datesIn (d : DirectoryClient) : list Z :=
  match d with
  | Dir items => datesAmong items
  end
with datesAmong (items : Listing) : list Z :=
  match items with
  | ListEnd => []
  | ListError _ => []
  | ListItem item rest =>
      match item with
      | file _ (Returned lastModified) => lastModified :: datesAmong rest
      | file _ (Raised _) => datesAmong rest
      | directory _ sub => datesIn sub ++ datesAmong rest
      | other _ => datesAmong rest
      end
  end.

(** The dates one item contributes. *)
Definition itemDates (item : Item) : list Z :=
  match item with
  | file _ (Returned lastModified) => [lastModified]
  | file _ (Raised _) => []
  | directory _ sub => datesIn sub
  | other _ => []
  end.

(** The first listing error the traversal meets, depth first. *)
Fixpoint firstError (d : DirectoryClient) : option Js.Error :=
  match d with
  | Dir items => firstErrorAmong items
  end
with firstErrorAmong (items : Listing) : option Js.Error :=
  match items with
  | ListEnd => None
  | ListError e => Some e
  | ListItem item rest =>
      match item with
      | directory _ sub =>
          match firstError sub with
          | Some e => Some e
          | None => firstErrorAmong rest
          end
      | _ => firstErrorAmong rest
      end
  end.

(** The number of directories of a tree, its root included. *)
Fixpoint directoriesIn (d : DirectoryClient) : Z :=
  match d with
  | Dir items => 1 + directoriesAmong items
  end
with directoriesAmong (items : Listing) : Z :=
  match items with
  | ListEnd => 0
  | ListError _ => 0
  | ListItem item rest =>
      match item with
      | directory _ sub => directoriesIn sub + directoriesAmong rest
      | _ => directoriesAmong rest
      end
  end.

(** The names of the files of a tree, and the paths of its directories
    when the root has the path [path], in the order in which a
    depth-first walk meets them. *)
Fixpoint fileNames (d : DirectoryClient) : list string :=
  match d with
  | Dir items => fileNamesAmong items
  end
with fileNamesAmong (items : Listing) : list string :=
  match items with
  | ListEnd => []
  | ListError _ => []
  | ListItem item rest =>
      match item with
      | file n _ => n :: fileNamesAmong rest
      | directory _ sub => fileNames sub ++ fileNamesAmong rest
      | other _ => fileNamesAmong rest
      end
  end.

Fixpoint directoryPaths (d : DirectoryClient) (path : string) : list string :=
  match d with
  | Dir items => path :: pathsAmong items path
  end
with pathsAmong (items : Listing) (path : string) : list string :=
  match items with
  | ListEnd => []
  | ListError _ => []
  | ListItem item rest =>
      match item with
      | directory n sub =>
          directoryPaths sub (path +:+ "/" +:+ n) ++ pathsAmong rest path
      | _ => pathsAmong rest path
      end
  end.

(** The paths of the listings opened and the names of the files whose
    properties were asked for, as they follow one another in a trace. *)
Definition listings (t : list NetCall) : list string :=
  omap (fun c => match c with ListFilesAndDirectories path => Some path | _ => None end) t.

Definition fetches (t : list NetCall) : list string :=
  omap (fun c => match c with GetProperties name => Some name | _ => None end) t.

(** The least and the greatest of a list of dates, [None] for no date. *)
Definition earliest (l : list Z) : option Z :=
  foldr (fun x acc => Combination.absent_or Z.min (Some x) acc) None l.

Definition latest (l : list Z) : option Z :=
  foldr (fun x acc => Combination.absent_or Z.max (Some x) acc) None l.

(** The aggregate of the items of a listing. *)
Definition summaryAmong (items : Listing) : Aggregate :=
  {| count := Tree.filesAmong items;
     oldestFile := earliest (datesAmong items);
     newestFile := latest (datesAmong items) |}.

End Walk.

(** ** The server between requests *)

Module Deployed.
Import App.

(** A string without the character [' ']. *)
Fixpoint spaceless (s : string) : bool :=
  match s with
  | EmptyString => true
  | String a rest => negb (Ascii.eqb a space) && spaceless rest
  end.

(** The monitors watch the arrays of [config], and [config.json] holds
    what [config] holds. *)
Definition synced (st : State) : Prop :=
  websiteMonitor st = hold (websites (config st)) ∧
  azureFileMonitor st = hold (azureFileStorages (config st)) ∧
  configFile st = config st.

(** The state after a sequence of requests, every write of which
    succeeds. *)
Definition serveAll (jwt : Jwt) (env : ProcessEnv) (st : State)
    (requests : list Request) : State :=
  foldl (fun st req => (serve jwt env (Returned tt) st req).1) st requests.

(** A token library with one valid token, a process without environment
    variables, and a freshly loaded configuration with one website. *)
Definition oneToken : Jwt :=
  {| sign := fun _ _ => "t0k3n";
     verify := fun token _ => if String.eqb token "t0k3n" then Some "admin" else None |}.

Definition noVariables : ProcessEnv :=
  {| env_ADMIN_USERNAME := None; env_ADMIN_PASSWORD := None; env_JWT_SECRET := None |}.

Definition loadedConfig : Config :=
  {| websites := Some [Some Endpoint.okExample]; azureFileStorages := None |}.

End Deployed.

(** * Properties *)

(** ** Laws of [Async] *)

Section AsyncLaws.
Context {A B : Type}.

Lemma completion_bind (m : Async A) (k : A → Async B) :
  completion (bind m k) =
  match completion m with
  | Returned a => completion (k a)
  | Raised e => Raised e
  end.
Proof.
  destruct m as [t [a|e]]; simpl; [|reflexivity].
  destruct (k a); reflexivity.
Qed.

Lemma completion_try_catch (m : Async A) (h : Js.Error → Async A) :
  completion (try_catch m h) =
  match completion m with
  | Returned a => Returned a
  | Raised e => completion (h e)
  end.
Proof.
  destruct m as [t [a|e]]; simpl; [reflexivity|].
  destruct (h e); reflexivity.
Qed.

Lemma bind_ret (a : A) (k : A → Async B) : bind (ret a) k = k a.
Proof. unfold bind, ret. destruct (k a); reflexivity. Qed.

Lemma completion_await (c : NetCall) (answer : Completion A) :
  completion (await c answer) = answer.
Proof. reflexivity. Qed.

End AsyncLaws.

(** ** The aggregate of a traversal *)

Module Aggregation.
Import AzureFileMonitor Combination.

Lemma merge_combine a b : merge a b = combine a b.
Proof.
  destruct a as [ca [oa|] [na|]], b as [cb [ob|] [nb|]];
    unfold merge, combine, older, newer; simpl;
    repeat match goal with
      | |- context [?x <? ?y] => destruct (Z.ltb_spec x y)
      | |- context [?x >? ?y] => rewrite (Z.gtb_ltb x y); destruct (Z.ltb_spec y x)
      end;
    f_equal; f_equal; lia.
Qed.

Lemma absent_or_comm f a b :
  (∀ x y, f x y = f y x) → absent_or f a b = absent_or f b a.
Proof. intros Hf. destruct a, b; simpl; congruence. Qed.

Lemma absent_or_assoc f a b c :
  (∀ x y z, f x (f y z) = f (f x y) z) →
  absent_or f a (absent_or f b c) = absent_or f (absent_or f a b) c.
Proof. intros Hf. destruct a, b, c; simpl; congruence. Qed.

Lemma combine_comm a b : combine a b = combine b a.
Proof.
  unfold combine. f_equal; [lia | |].
  - apply absent_or_comm, Z.min_comm.
  - apply absent_or_comm, Z.max_comm.
Qed.

Lemma combine_assoc a b c : combine a (combine b c) = combine (combine a b) c.
Proof.
  unfold combine; simpl. f_equal; [lia | |].
  - apply absent_or_assoc, Z.min_assoc.
  - apply absent_or_assoc, Z.max_assoc.
Qed.

Lemma combine_empty_r a : combine a empty = a.
Proof.
  destruct a as [c [o|] [n|]]; unfold combine; simpl; f_equal; lia.
Qed.

(** C7. Merging a subdirectory's aggregate into the running one (lines
    140-149 of the monitor) adds the counts, takes the minimum of the
    oldest dates and the maximum of the newest ones with [null] as the
    absent date; this operation is commutative and associative, and the
    empty aggregate [{count: 0, oldestFile: null, newestFile: null}] is
    its identity on both sides. *)
Theorem merge_commutative_monoid :
  (∀ a b, merge a b = combine a b) ∧
  (∀ a b, merge a b = merge b a) ∧
  (∀ a b c, merge a (merge b c) = merge (merge a b) c) ∧
  (∀ a, merge a empty = a) ∧
  (∀ a, merge empty a = a).
Proof.
  split; [exact merge_combine|].
  split; [intros; rewrite !merge_combine; apply combine_comm|].
  split; [intros; rewrite !merge_combine; apply combine_assoc|].
  split; intros a.
  - rewrite merge_combine. apply combine_empty_r.
  - rewrite merge_combine, combine_comm. apply combine_empty_r.
Qed.

End Aggregation.

(** ** The recursive traversal *)

Module Traversal.
Import AzureFileMonitor Tree.

Lemma wellFormed_empty : wellFormed empty.
Proof. repeat split; simpl; try done. Qed.

Lemma wellFormed_touch x st : wellFormed st → wellFormed (touch x st).
Proof.
  destruct st as [c [o|] [n|]]; intros (Hc & Hiff & Hle); simpl in *;
    try (destruct Hiff as [H1 H2]; first [by specialize (H1 eq_refl) | by specialize (H2 eq_refl)]).
  - specialize (Hle _ _ eq_refl eq_refl).
    unfold wellFormed, touch, older, newer; simpl.
    rewrite (Z.gtb_ltb x n).
    destruct (Z.ltb_spec x o), (Z.ltb_spec n x); simpl;
      (split; [done|]); (split; [done|]); intros ? ? [= <-] [= <-]; lia.
  - unfold wellFormed, touch; simpl.
    split; [done|]. split; [done|]. intros ? ? [= <-] [= <-]; lia.
Qed.

Lemma wellFormed_count z st :
  0 ≤ z → wellFormed st →
  wellFormed {| count := count st + z; oldestFile := oldestFile st;
                newestFile := newestFile st |}.
Proof. intros Hz (Hc & Hiff & Hle). split; simpl; [lia | done]. Qed.

Lemma wellFormed_merge st sub :
  wellFormed st → wellFormed sub → wellFormed (merge st sub).
Proof.
  rewrite Aggregation.merge_combine.
  destruct st as [c [o|] [n|]], sub as [c' [o'|] [n'|]];
    intros (Hc & Hiff & Hle) (Hc' & Hiff' & Hle'); simpl in *;
    try (destruct Hiff as [H1 H2]; first [by specialize (H1 eq_refl) | by specialize (H2 eq_refl)]);
    try (destruct Hiff' as [H1 H2]; first [by specialize (H1 eq_refl) | by specialize (H2 eq_refl)]);
    unfold wellFormed, Combination.combine; simpl;
    (split; [lia|]); (split; [done|]); intros ? ? [= <-] [= <-];
    try specialize (Hle _ _ eq_refl eq_refl);
    try specialize (Hle' _ _ eq_refl eq_refl); lia.
Qed.

(** The equations of the traversal at each kind of item. *)
Lemma completion_countFilesRecursively items path :
  completion (countFilesRecursively (Dir items) path) =
  completion (forAwait items path empty).
Proof. cbn [countFilesRecursively]. rewrite completion_bind. reflexivity. Qed.

Lemma completion_forAwait_file n p rest path st :
  completion (forAwait (ListItem (file n p) rest) path st) =
  completion (forAwait rest path
    match p with
    | Returned lastModified =>
        touch lastModified {| count := count st + 1; oldestFile := oldestFile st;
                              newestFile := newestFile st |}
    | Raised _ => {| count := count st + 1; oldestFile := oldestFile st;
                     newestFile := newestFile st |}
    end).
Proof.
  cbn [forAwait]. rewrite completion_bind, completion_try_catch, completion_bind.
  destruct p; reflexivity.
Qed.

Lemma completion_forAwait_directory n sub rest path st :
  completion (forAwait (ListItem (directory n sub) rest) path st) =
  match completion (countFilesRecursively sub (path +:+ "/" +:+ n)) with
  | Returned subResult => completion (forAwait rest path (merge st subResult))
  | Raised e => Raised e
  end.
Proof. cbn [forAwait]. rewrite completion_bind. reflexivity. Qed.

Lemma forAwait_wellFormed :
  ∀ items path st agg,
    wellFormed st →
    completion (forAwait items path st) = Returned agg → wellFormed agg.
Proof.
  apply (listing_mut
    (fun d => ∀ path agg,
       completion (countFilesRecursively d path) = Returned agg → wellFormed agg)
    (fun items => ∀ path st agg,
       wellFormed st →
       completion (forAwait items path st) = Returned agg → wellFormed agg)
    (fun item => ∀ rest,
       (∀ path st agg,
          wellFormed st →
          completion (forAwait rest path st) = Returned agg → wellFormed agg) →
       ∀ path st agg,
         wellFormed st →
         completion (forAwait (ListItem item rest) path st) = Returned agg →
         wellFormed agg)).
  - intros items IH path agg. rewrite completion_countFilesRecursively.
    apply IH, wellFormed_empty.
  - intros path st agg Hst [= <-]. exact Hst.
  - intros e path st agg _ [=].
  - intros item IHitem rest IHrest. apply IHitem, IHrest.
  - intros n p rest IHrest path st agg Hst.
    rewrite completion_forAwait_file. apply IHrest.
    destruct p; [apply wellFormed_touch|]; by apply wellFormed_count.
  - intros n sub IHsub rest IHrest path st agg Hst.
    rewrite completion_forAwait_directory.
    destruct (completion (countFilesRecursively sub _)) as [subResult|e] eqn:Hsub;
      [|done].
    apply IHrest, wellFormed_merge; [done|]. by eapply IHsub.
  - intros n rest IHrest path st agg Hst. cbn [forAwait]. by apply IHrest.
Qed.

Lemma forAwait_counts :
  ∀ items path st,
    listableItems items = true →
    ∃ agg, completion (forAwait items path st) = Returned agg ∧
           count agg = count st + filesAmong items.
Proof.
  apply (listing_mut
    (fun d => ∀ path,
       listable d = true →
       ∃ agg, completion (countFilesRecursively d path) = Returned agg ∧
              count agg = filesIn d)
    (fun items => ∀ path st,
       listableItems items = true →
       ∃ agg, completion (forAwait items path st) = Returned agg ∧
              count agg = count st + filesAmong items)
    (fun item => ∀ rest,
       (∀ path st,
          listableItems rest = true →
          ∃ agg, completion (forAwait rest path st) = Returned agg ∧
                 count agg = count st + filesAmong rest) →
       ∀ path st,
         listableItems (ListItem item rest) = true →
         ∃ agg, completion (forAwait (ListItem item rest) path st) = Returned agg ∧
                count agg = count st + filesAmong (ListItem item rest))).
  - intros items IH path Hl. rewrite completion_countFilesRecursively.
    destruct (IH path empty Hl) as (agg & Hagg & Hc). exists agg. split; [done|].
    rewrite Hc. simpl. lia.
  - intros path st _. exists st. split; [done|]. simpl. lia.
  - intros e path st [=].
  - intros item IHitem rest IHrest. apply IHitem, IHrest.
  - intros n p rest IHrest path st Hl. rewrite completion_forAwait_file.
    cbn [listableItems] in Hl. cbn [filesAmong].
    edestruct IHrest as (agg & -> & Hc); [exact Hl|].
    exists agg. split; [done|]. rewrite Hc. destruct p; simpl; lia.
  - intros n sub IHsub rest IHrest path st Hl.
    rewrite completion_forAwait_directory.
    cbn [listableItems] in Hl. apply andb_prop in Hl as [Hsub Hrest].
    destruct (IHsub (path +:+ "/" +:+ n) Hsub) as (subResult & -> & Hs).
    edestruct IHrest as (agg & -> & Hc); [exact Hrest|].
    exists agg. split; [done|]. rewrite Hc. cbn [filesAmong]. simpl. lia.
  - intros n rest IHrest path st Hl. cbn [forAwait filesAmong listableItems] in *.
    by apply IHrest.
Qed.

Lemma reorderedItems_same l l' :
  reorderedItems l l' →
  listableItems l = listableItems l' ∧ filesAmong l = filesAmong l'.
Proof.
  apply (reorderedItems_mut
    (fun d d' => listable d = listable d' ∧ filesIn d = filesIn d')
    (fun l l' => listableItems l = listableItems l' ∧ filesAmong l = filesAmong l')).
  - intros ? ? _ IH. exact IH.
  - done.
  - intros n p k k' _ [Hl Hf]. simpl. split; [done | lia].
  - intros n d d' k k' _ [Hd Hfd] _ [Hl Hf]. simpl. split; [congruence | lia].
  - intros n k k' _ [Hl Hf]. simpl. done.
  - intros i j k k' _ [Hl Hf]. destruct i, j; simpl; rewrite Hl, Hf;
      (split; [|lia]);
      repeat match goal with |- context [listable ?d] => destruct (listable d) end;
      simpl; try reflexivity; by destruct (listableItems k').
  - intros l1 l2 l3 _ [Hl Hf] _ [Hl' Hf']. split; congruence.
Qed.

(** C6. When every listing of a directory tree runs to its end, the
    traversal returns, and its count is the number of files anywhere in
    the tree; this holds just the same for the tree with its listings
    enumerated in any other order, at any depth.  An empty directory
    yields [{count: 0, oldestFile: null, newestFile: null}]. *)
Theorem countFilesRecursively_counts_files
    (d d' : DirectoryClient) (path path' : string)
    (Hlist : listable d = true) (Horder : reordered d d') :
  (∃ agg, completion (countFilesRecursively d path) = Returned agg ∧
          count agg = filesIn d) ∧
  (∃ agg', completion (countFilesRecursively d' path') = Returned agg' ∧
           count agg' = filesIn d) ∧
  completion (countFilesRecursively (Dir ListEnd) path) = Returned empty.
Proof.
  destruct Horder as [l l' Horder].
  apply reorderedItems_same in Horder as [Hl Hf].
  cbn [listable] in Hlist.
  split; [|split; [|reflexivity]].
  - rewrite completion_countFilesRecursively.
    destruct (forAwait_counts l path empty Hlist) as (agg & -> & Hc).
    exists agg. split; [done|]. rewrite Hc. simpl. lia.
  - rewrite completion_countFilesRecursively.
    destruct (forAwait_counts l' path' empty) as (agg & -> & Hc); [congruence|].
    exists agg. split; [done|]. rewrite Hc. simpl. lia.
Qed.

Lemma sampleTree_reordered : reordered sampleTree sampleTreeReordered.
Proof.
  constructor.
  eapply reordered_trans.
  - apply reordered_swap. apply reordered_file, reordered_end.
  - apply reordered_directory.
    + constructor. apply reordered_swap, reordered_end.
    + apply reordered_file, reordered_file, reordered_end.
Defined.

Lemma countFilesRecursively_counts_files_witness :
  listable sampleTree = true ∧
  reordered sampleTree sampleTreeReordered ∧
  (∃ agg, completion (countFilesRecursively sampleTree "") = Returned agg ∧
          count agg = 3) ∧
  (∃ agg', completion (countFilesRecursively sampleTreeReordered "") = Returned agg' ∧
           count agg' = 3).
Proof.
  split; [reflexivity|]. split; [exact sampleTree_reordered|].
  destruct (countFilesRecursively_counts_files sampleTree sampleTreeReordered "" ""
              eq_refl sampleTree_reordered) as (H1 & H2 & _).
  split; [exact H1 | exact H2].
Defined.

(** C10. Every aggregate that [countFilesRecursively] returns has a
    non-negative count, has [oldestFile] null exactly when [newestFile] is
    null, and has [oldestFile <= newestFile] when both are dates.  The
    count can be positive while both dates are null: a file whose
    properties cannot be fetched is counted and contributes no date. *)
Theorem countFilesRecursively_wellFormed
    (d : DirectoryClient) (path : string) (agg : Aggregate)
    (Hret : completion (countFilesRecursively d path) = Returned agg) :
  (0 ≤ count agg ∧
   (oldestFile agg = None ↔ newestFile agg = None) ∧
   (∀ o n, oldestFile agg = Some o → newestFile agg = Some n → o ≤ n)) ∧
  (∀ n e,
     completion (countFilesRecursively (Dir (ListItem (file n (Raised e)) ListEnd)) path)
     = Returned {| count := 1; oldestFile := None; newestFile := None |}).
Proof.
  split; [|reflexivity].
  destruct d as [items]. rewrite completion_countFilesRecursively in Hret.
  exact (forAwait_wellFormed items path empty agg wellFormed_empty Hret).
Qed.

Lemma countFilesRecursively_wellFormed_witness :
  completion (countFilesRecursively sampleTree "")
  = Returned {| count := 3; oldestFile := Some 50; newestFile := Some 100 |} ∧
  0 ≤ 3 ∧ (Some 50 = None ↔ Some 100 = None :> option Z) ∧
  (∀ o n, Some 50 = Some o → Some 100 = Some n → o ≤ n).
Proof.
  split; [reflexivity|].
  exact (proj1 (countFilesRecursively_wellFormed sampleTree ""
                  {| count := 3; oldestFile := Some 50; newestFile := Some 100 |}
                  eq_refl)).
Defined.

End Traversal.

(** ** The endpoint probe *)

Module EndpointProbe.
Import WebsiteMonitor Endpoint.

Lemma failure_functional w c c' : failure w c → failure w c' → c' = c.
Proof. intros H H'. destruct H; inversion H'; subst; congruence. Qed.

(** Closes the goals about a [down] result once its fields are known. *)
Ltac failed_probe :=
  split;
  [ split; [|done]; intros _; eexists; by constructor
  | let c := fresh "c" in
    let Hc := fresh "Hc" in
    intros c Hc; split; [intros; by eapply failure_functional|];
    inversion Hc; subst; done ].

(** The probe of an object always returns a result. *)
Lemma checkWebsite_object w env :
  completion (checkWebsite (Some w) env) = Returned (outcome w env).
Proof.
  unfold checkWebsite, outcome. cbn [get_url get_name].
  rewrite completion_try_catch, bind_ret, completion_bind.
  destruct (completion (axios_get (url w) (wire env))) as [resp|err]; [reflexivity|].
  destruct (classify err); reflexivity.
Qed.

(** C3, as the code has it. When the GET of a website target yields a
    response whose status code is below 500 (4xx included) and axios
    resolves with it, the probe awaits that one request and returns a
    result with status [up], the response's code as [statusCode], the
    elapsed time between the two clock readings as [responseTime] and the
    message [OK - <code>]. *)
Theorem checkWebsite_up (w : Website) (env : World) (resp : Js.Response)
    (Hwire : wire env = Responded resp) (Hcode : Js.status resp < 500) :
  ∃ r, checkWebsite (Some w) env = ([HttpGet (url w)], Returned r) ∧
       r_url r = url w ∧
       r_status r = up ∧
       r_statusCode r = Js.status resp ∧
       r_responseTime r = endClock env - startClock env ∧
       r_message r = "OK - " +:+ Js.number_to_string (Js.status resp).
Proof.
  unfold checkWebsite, axios_get, validateStatus. rewrite Hwire.
  destruct (Z.ltb_spec (Js.status resp) 500) as [_|Hge]; [|lia].
  simpl. eexists. split; [reflexivity|]. simpl. done.
Qed.

Lemma checkWebsite_up_witness :
  ∃ r, checkWebsite (Some okExample) okWorld
       = ([HttpGet "https://ok.example"], Returned r) ∧
       r_url r = "https://ok.example" ∧
       r_status r = up ∧
       r_statusCode r = 200 ∧
       r_responseTime r = 120 ∧
       r_message r = "OK - 200".
Proof.
  exact (checkWebsite_up okExample okWorld
           {| Js.status := 200; Js.statusText := "OK" |} eq_refl eq_refl).
Defined.

(** C3 as stated fails: a response with status 200 came back, axios
    rejected with that response attached, and the [catch] block, which
    does not look at the status, returns [down] with the message
    [HTTP 200 - OK]. *)
Lemma checkWebsite_down_below_500 :
  received (wire rejectedWorld) = Some {| Js.status := 200; Js.statusText := "OK" |} ∧
  checkWebsite (Some okExample) rejectedWorld
  = ([HttpGet "https://ok.example"],
     Returned {| r_url := "https://ok.example"; r_name := "https://ok.example";
                 r_status := down; r_statusCode := 200; r_responseTime := 120;
                 r_timestamp := 1700000000121; r_message := "HTTP 200 - OK" |}) ∧
  ¬ (∀ (w : Website) (env : World) (resp : Js.Response),
       received (wire env) = Some resp → Js.status resp < 500 →
       ∃ r, completion (checkWebsite (Some w) env) = Returned r ∧ r_status r = up).
Proof.
  split; [reflexivity|]. split; [reflexivity|].
  intros claim.
  destruct (claim okExample rejectedWorld _ eq_refl eq_refl) as (r & Hr & Hup).
  injection Hr as <-. discriminate.
Qed.

(** C4, as the code has it. The probe of a website target never raises.
    It returns a result that is [down] exactly when the request failed:
    no response, a response with status 500 or more, or a response that
    axios rejected for another reason.  A failure has exactly one cause
    among error response, timeout, name-resolution failure, connection
    refused and generic; every error that carries a response is an error
    response, whatever its status.  The result's message is that cause's
    message, and its [statusCode] is the remote code when a response was
    received and 0 otherwise. *)
Theorem checkWebsite_never_raises (w : Website) (env : World) :
  ∃ r, checkWebsite (Some w) env = ([HttpGet (url w)], Returned r) ∧
       r_responseTime r = endClock env - startClock env ∧
       (r_status r = down ↔ ∃ c, failure (wire env) c) ∧
       (∀ c, failure (wire env) c →
             (∀ c', failure (wire env) c' → c' = c) ∧
             r_message r = messageOf c ∧
             r_statusCode r = statusCodeOf c ∧
             r_statusCode r = match received (wire env) with
                              | Some resp => Js.status resp
                              | None => 0
                              end).
Proof.
  unfold checkWebsite, axios_get, validateStatus.
  destruct (wire env) as [resp|c msg|resp c msg] eqn:Hwire.
  - destruct (Z.ltb_spec (Js.status resp) 500) as [Hlt|Hge];
      simpl; (eexists; split; [reflexivity|]); simpl; (split; [done|]).
    + split.
      * split; [done|]. intros [c Hc]. inversion Hc; lia.
      * intros c Hc. inversion Hc; lia.
    + failed_probe.
  - unfold classify. simpl.
    repeat case_decide; simpl; (eexists; split; [reflexivity|]); simpl;
      (split; [done|]); subst; failed_probe.
  - simpl. eexists. split; [reflexivity|]. simpl. split; [done|]. failed_probe.
Qed.

(** C4 as stated fails: the error responses are not those with status 500
    or more.  For the 200 response that axios rejected, the result is
    [down], captures the code and the reason of the response, and its
    status is below 500. *)
Lemma checkWebsite_error_response_below_500 :
  ¬ (∀ (w : Website) (env : World) (r : Result) (resp : Js.Response),
       completion (checkWebsite (Some w) env) = Returned r →
       r_status r = down →
       received (wire env) = Some resp →
       r_statusCode r = Js.status resp →
       r_message r = messageOf (RemoteErrorResponse (Js.status resp) (Js.statusText resp)) →
       500 ≤ Js.status resp).
Proof.
  intros claim.
  specialize (claim okExample rejectedWorld _ _ eq_refl eq_refl eq_refl eq_refl eq_refl).
  simpl in claim. lia.
Qed.

End EndpointProbe.

(** ** Dictionaries *)

Section Dictionaries.
Context {V : Type}.
Implicit Types (results : Js.Dict V) (k : string) (v : V).

Lemma lookup_own results k : results !! k = Js.own results !! k.
Proof. reflexivity. Qed.

Lemma own_assign results k v k' :
  Js.own (Js.assign results k v) !! k' =
  if decide (k = k' ∧ k' ≠ "__proto__") then Some v else Js.own results !! k'.
Proof.
  unfold Js.assign. destruct (decide (k = "__proto__")) as [->|Hk]; cbn [Js.own].
  - rewrite decide_False; [done|]. by intros [<- ?].
  - destruct (decide (k = k')) as [<-|Hne].
    + rewrite decide_True by done. apply lookup_insert_eq.
    + rewrite decide_False by (by intros [? _]). by apply lookup_insert_ne.
Qed.

Lemma proto_assign results k v :
  Js.proto (Js.assign results k v) =
  if decide (k = "__proto__") then Some v else Js.proto results.
Proof. unfold Js.assign. by destruct (decide (k = "__proto__")). Qed.

Lemma dom_assign results k v :
  k ≠ "__proto__" →
  dom (Js.own (Js.assign results k v)) = {[k]} ∪ dom (Js.own results).
Proof.
  intros Hk. unfold Js.assign. rewrite decide_False by done. cbn [Js.own].
  apply dom_insert_L.
Qed.

Lemma dict_eq results results' :
  Js.own results = Js.own results' → Js.proto results = Js.proto results' →
  results = results'.
Proof. destruct results, results'. cbn. by intros -> ->. Qed.

End Dictionaries.

(** ** The store probe *)

Module StoreProbe.
Import AzureFileMonitor Store.

Lemma forDirs_completion shareClient dirs fileCount results :
  completion (forDirs shareClient dirs fileCount results) =
  match firstInvalid shareClient dirs with
  | Some e => Raised e
  | None =>
      Returned (fileCount + sumZ (contribution shareClient <$> dirs),
                foldl (record shareClient) results dirs)
  end.
Proof.
  revert fileCount results.
  induction dirs as [|dir rest IH]; intros fileCount results.
  - simpl. do 2 f_equal. lia.
  - cbn [forDirs firstInvalid].
    destruct (invalid shareClient dir) as [e|]; [reflexivity|].
    rewrite bind_ret, completion_bind, completion_try_catch, completion_bind.
    unfold contribution, record, entryOf, traversal in *.
    cbn [fmap list_fmap sumZ foldr foldl].
    destruct (completion (countFilesRecursively _ dir)) as [agg|e]; simpl;
      rewrite IH; (destruct (firstInvalid shareClient rest); [reflexivity|]);
      do 2 f_equal; unfold sumZ; lia.
Qed.

Lemma foldl_record_lookup shareClient dirs results dir :
  Js.own (foldl (record shareClient) results dirs) !! dir =
  if decide (dir ∈ dirs ∧ dir ≠ "__proto__")
  then Some (entryOf shareClient dir)
  else Js.own results !! dir.
Proof.
  revert results. induction dirs as [|d rest IH]; intros results; cbn [foldl].
  - rewrite decide_False; [done|]. intros [?%elem_of_nil _]. done.
  - rewrite IH. unfold record. rewrite own_assign.
    destruct (decide (dir ∈ rest ∧ dir ≠ "__proto__")) as [[Hin Hp]|Hnin].
    + rewrite decide_True; [done|]. split; [by right | done].
    + destruct (decide (d = dir ∧ dir ≠ "__proto__")) as [[-> Hp]|Hne].
      * rewrite decide_True; [done|]. split; [by left | done].
      * rewrite decide_False; [done|].
        intros [[->|?]%elem_of_cons Hp]; [by apply Hne | by apply Hnin].
Qed.

Lemma foldl_record_dom shareClient dirs results :
  "__proto__" ∉ dirs →
  dom (Js.own (foldl (record shareClient) results dirs))
  = list_to_set dirs ∪ dom (Js.own results).
Proof.
  revert results. induction dirs as [|d rest IH]; intros results Hp; simpl.
  - set_solver.
  - apply not_elem_of_cons in Hp as [Hd Hp]. rewrite IH by done. unfold record.
    rewrite dom_assign by done. set_solver.
Qed.

Lemma foldl_record_proto shareClient dirs results :
  Js.proto (foldl (record shareClient) results dirs) =
  if decide ("__proto__" ∈ dirs) then Some (entryOf shareClient "__proto__")
  else Js.proto results.
Proof.
  revert results. induction dirs as [|d rest IH]; intros results; cbn [foldl].
  - rewrite decide_False; [done | apply not_elem_of_nil].
  - rewrite IH. unfold record. rewrite proto_assign.
    destruct (decide ("__proto__" ∈ rest)) as [Hin|Hnin].
    + rewrite decide_True; [done | by right].
    + destruct (decide (d = "__proto__")) as [->|Hne].
      * rewrite decide_True; [done | by left].
      * rewrite decide_False; [done|]. intros [?|?]%elem_of_cons; done.
Qed.

Lemma describe_object storage st fileCount env msg :
  describe (Some storage) st fileCount env msg
  = ret (resultOf storage st fileCount env msg None).
Proof. reflexivity. Qed.

Lemma countFiles_object storage env shareClient :
  completion (countFiles (Some storage) env shareClient) =
  if explicit (directories storage) then
    match firstInvalid shareClient (default [] (directories storage)) with
    | Some e => Returned (inr (resultOf storage error 0 env (Js.message e) None))
    | None =>
        Returned (inl (sumZ (contribution shareClient <$> default [] (directories storage)),
                       foldl (record shareClient) Js.emptyDict
                         (default [] (directories storage))))
    end
  else
    match traversal shareClient "" with
    | Returned agg => Returned (inl (count agg, Js.emptyDict))
    | Raised e => Returned (inr (resultOf storage error 0 env (Js.message e) None))
    end.
Proof.
  unfold countFiles. cbn [prop]. rewrite bind_ret, completion_try_catch, completion_bind.
  destruct (explicit (directories storage)).
  - rewrite forDirs_completion.
    destruct (firstInvalid shareClient _); reflexivity.
  - rewrite completion_bind. unfold traversal.
    destruct (completion (countFilesRecursively _ "")) as [agg|e]; reflexivity.
Qed.

Lemma probeShare_object storage env shareClient :
  completion (probeShare (Some storage) env shareClient) =
  match exists_ shareClient with
  | Raised e => Raised e
  | Returned false =>
      Returned (resultOf storage error 0 env "Share does not exist" None)
  | Returned true => Returned (counted_result storage env shareClient)
  end.
Proof.
  unfold probeShare. rewrite completion_bind, completion_await.
  destruct (exists_ shareClient) as [[|]|e]; cbn [negb]; [| reflexivity | reflexivity].
  rewrite completion_bind, countFiles_object. unfold counted_result.
  destruct (explicit (directories storage)) eqn:Hexp.
  - destruct (firstInvalid shareClient _); [reflexivity|].
    rewrite describe_object, bind_ret. cbn [prop]. rewrite bind_ret, Hexp.
    reflexivity.
  - destruct (traversal shareClient "") as [agg|e]; [|reflexivity].
    rewrite describe_object, bind_ret. cbn [prop]. rewrite bind_ret, Hexp.
    reflexivity.
Qed.

Lemma resolveShareClient_object storage env :
  resolveShareClient (Some storage) env =
  if hasAccess storage then newShareClient env
  else throw (Js.mkError "Either sasUrl or credential must be provided").
Proof.
  unfold resolveShareClient, hasAccess. cbn [prop]. rewrite bind_ret.
  destruct (Js.truthy (sasUrl storage)); cbn [orb]; [reflexivity|].
  rewrite bind_ret. destruct (credential storage) as [cred|].
  - rewrite bool_decide_eq_true_2 by eauto. reflexivity.
  - rewrite bool_decide_eq_false_2 by (intros [? [=]]). reflexivity.
Qed.

(** With a client, the probe begins with the existence check. *)
Lemma newShareClient_answer env answer :
  construction (share env) = Returned answer →
  newShareClient env = ret (share env) ∧ exists_ (share env) = answer.
Proof. intros Hc. unfold newShareClient, exists_. by rewrite Hc. Qed.

Lemma exists_answer env answer :
  exists_ (share env) = Returned answer →
  construction (share env) = Returned (Returned answer).
Proof.
  unfold exists_. destruct (construction (share env)) as [c|e]; [|done]. by intros ->.
Qed.

(** The probe of an object always returns a result. *)
Lemma checkFileStorage_object storage env :
  completion (checkFileStorage (Some storage) env) = Returned (outcome storage env).
Proof.
  unfold outcome, checkFileStorage. rewrite completion_try_catch, resolveShareClient_object.
  destruct (hasAccess storage); [|reflexivity].
  unfold newShareClient, exists_.
  destruct (construction (share env)) as [answer|e] eqn:Hc; [|reflexivity].
  rewrite bind_ret, probeShare_object. unfold exists_. rewrite Hc.
  destruct answer as [[|]|e]; reflexivity.
Qed.

(** C5. A file-store target that supplies neither [sasUrl] nor
    [credential] gets a result with status [error] at once: the probe
    awaits no network call at all. *)
Theorem checkFileStorage_without_access (storage : Storage) (env : World)
    (Hsas : Js.truthy (sasUrl storage) = false)
    (Hcred : credential storage = None) :
  ∃ r, checkFileStorage (Some storage) env = ([], Returned r) ∧
       r_status r = error ∧
       r_fileCount r = 0 ∧
       r_message r = "Either sasUrl or credential must be provided" ∧
       r_directoryBreakdown r = None.
Proof.
  unfold checkFileStorage, resolveShareClient. cbn [prop].
  rewrite bind_ret, Hsas, bind_ret, Hcred.
  eexists. split; [reflexivity|]. done.
Qed.

Lemma checkFileStorage_without_access_witness :
  Js.truthy (sasUrl bareTarget) = false ∧
  credential bareTarget = None ∧
  ∃ r, checkFileStorage (Some bareTarget) sampleWorld = ([], Returned r) ∧
       r_status r = error ∧
       r_fileCount r = 0 ∧
       r_message r = "Either sasUrl or credential must be provided" ∧
       r_directoryBreakdown r = None.
Proof.
  split; [reflexivity|]. split; [reflexivity|].
  exact (checkFileStorage_without_access bareTarget sampleWorld eq_refl eq_refl).
Defined.

(** The two store examples of the specification. *)
Example wholeShare_result :
  checkFileStorage (Some wholeShare) sampleWorld =
  ([ShareExists; ListFilesAndDirectories ""; GetProperties "r1";
    ListFilesAndDirectories "/empty"; GetProperties "r2"; GetProperties "r3"],
   Returned {| r_accountName := Some "acct"; r_shareName := "docs";
               r_name := "acct/docs"; r_status := ok; r_fileCount := 3;
               r_timestamp := 1700000000000; r_message := "3 files found";
               r_directoryBreakdown := None |}).
Proof. reflexivity. Qed.

Example twoListed_result :
  completion (checkFileStorage (Some twoListed) sampleWorld) =
  Returned {| r_accountName := Some "acct"; r_shareName := "docs";
              r_name := "acct/docs"; r_status := ok; r_fileCount := 2;
              r_timestamp := 1700000000000;
              r_message := "2 files found across 2 directories";
              r_directoryBreakdown :=
                Some {| Js.own :=
                          <["b" := failed "The specified resource does not exist."]>
                            (<["a" := counted 2 (Some 10) (Some 20)]> ∅);
                        Js.proto := None |} |}.
Proof. vm_compute. reflexivity. Qed.

Lemma firstInvalid_none shareClient dirs :
  (∀ dir, dir ∈ dirs → invalid shareClient dir = None) →
  firstInvalid shareClient dirs = None.
Proof.
  induction dirs as [|d rest IH]; intros Hvalid; [done|].
  cbn [firstInvalid]. rewrite (Hvalid d) by (by left).
  apply IH. intros dir Hin. apply Hvalid. by right.
Qed.

(** C8, where the code departs from it.  The target [escapingTarget]
    lists [a], [..] and [c] on a share where [a] holds two files and [c]
    three.  [a] is traversed; then [getDirectoryClient] throws for [..],
    outside the [try] that surrounds a traversal; the [catch] of the whole
    count answers: an error result with [fileCount] 0 and no breakdown,
    and [c] is never traversed.  The target [protoListed] lists [a] and
    [__proto__]: its result is [ok] and counts both, and the breakdown has
    an entry for [a] only. *)
Theorem checkFileStorage_directories_aborted :
  hasAccess escapingTarget = true ∧
  exists_ (share sampleWorld) = Returned true ∧
  contribution sampleShare "a" = 2 ∧
  contribution sampleShare "c" = 3 ∧
  checkFileStorage (Some escapingTarget) sampleWorld =
  ([ShareExists; ListFilesAndDirectories "a"; GetProperties "one"; GetProperties "two"],
   Returned {| r_accountName := Some "acct"; r_shareName := "docs";
               r_name := "acct/docs"; r_status := error; r_fileCount := 0;
               r_timestamp := 1700000000000;
               r_message :=
                 "Unable to extract shareName and path with provided information.";
               r_directoryBreakdown := None |}) ∧
  completion (checkFileStorage (Some protoListed) sampleWorld) =
  Returned {| r_accountName := Some "acct"; r_shareName := "docs";
              r_name := "acct/docs"; r_status := ok; r_fileCount := 2;
              r_timestamp := 1700000000000;
              r_message := "2 files found across 2 directories";
              r_directoryBreakdown :=
                Some {| Js.own := <["a" := counted 2 (Some 10) (Some 20)]> ∅;
                        Js.proto := Some (counted 0 None None) |} |}.
Proof.
  split; [reflexivity|]. split; [reflexivity|]. split; [reflexivity|].
  split; [reflexivity|]. split; [reflexivity|]. vm_compute. reflexivity.
Qed.

(** X21. With an access mode, an existing share and an explicit non-empty
    [directories] list for each name of which a client can be built, each
    listed directory is traversed on its own.  The probe returns an [ok]
    result whose [fileCount] is the sum of the counts of the directories
    whose traversal succeeded, and whose [directoryBreakdown] has an entry
    for exactly the listed directories other than [__proto__]: the counts
    of a directory that was traversed, [{error: message}] for one whose
    traversal failed. *)
Theorem checkFileStorage_directories
    (storage : Storage) (env : World) (dirs : list string)
    (Haccess : hasAccess storage = true)
    (Hexists : exists_ (share env) = Returned true)
    (Hdirs : directories storage = Some dirs)
    (Hne : dirs ≠ [])
    (Hvalid : ∀ dir, dir ∈ dirs → invalid (share env) dir = None) :
  ∃ r breakdown,
    completion (checkFileStorage (Some storage) env) = Returned r ∧
    r_status r = ok ∧
    r_fileCount r = sumZ (contribution (share env) <$> dirs) ∧
    r_directoryBreakdown r = Some breakdown ∧
    (∀ dir, is_Some (breakdown !! dir) ↔ dir ∈ dirs ∧ dir ≠ "__proto__") ∧
    ∀ dir, dir ∈ dirs → dir ≠ "__proto__" →
      match completion (countFilesRecursively (getDirectoryClient (share env) dir) dir) with
      | Returned agg =>
          breakdown !! dir = Some (counted (count agg) (oldestFile agg) (newestFile agg))
      | Raised e => breakdown !! dir = Some (failed (Js.message e))
      end.
Proof.
  rewrite checkFileStorage_object. unfold outcome. rewrite Haccess, Hexists.
  unfold counted_result. rewrite Hdirs.
  destruct dirs as [|d rest]; [done|]. cbn [explicit default from_option id].
  rewrite (firstInvalid_none _ _ Hvalid).
  eexists _, _. split; [reflexivity|]. cbn [r_status r_fileCount r_directoryBreakdown resultOf].
  split; [done|]. split; [done|]. split; [done|]. split.
  - intros dir. rewrite lookup_own, foldl_record_lookup.
    destruct (decide (dir ∈ d :: rest ∧ dir ≠ "__proto__")) as [Hin|Hnin].
    + split; [done | by eexists].
    + split; [|done]. cbn [Js.emptyDict Js.own]. rewrite lookup_empty. by intros [? [=]].
  - intros dir Hin Hp.
    pose proof (foldl_record_lookup (share env) (d :: rest) Js.emptyDict dir) as Hl.
    rewrite decide_True in Hl by done. unfold entryOf, traversal in Hl.
    rewrite lookup_own.
    destruct (completion (countFilesRecursively _ dir)); exact Hl.
Qed.

Lemma checkFileStorage_directories_witness :
  hasAccess listedTarget = true ∧
  exists_ (share sampleWorld) = Returned true ∧
  directories listedTarget = Some ["a"; "b"; "c"] ∧
  ["a"; "b"; "c"] ≠ [] ∧
  (∀ dir, dir ∈ ["a"; "b"; "c"] → invalid (share sampleWorld) dir = None) ∧
  ∃ r breakdown,
    completion (checkFileStorage (Some listedTarget) sampleWorld) = Returned r ∧
    r_status r = ok ∧
    r_fileCount r = 5 ∧
    r_directoryBreakdown r = Some breakdown ∧
    (∀ dir, is_Some (breakdown !! dir) ↔ dir ∈ ["a"; "b"; "c"] ∧ dir ≠ "__proto__") ∧
    ∀ dir, dir ∈ ["a"; "b"; "c"] → dir ≠ "__proto__" →
      match completion (countFilesRecursively (getDirectoryClient sampleShare dir) dir) with
      | Returned agg =>
          breakdown !! dir = Some (counted (count agg) (oldestFile agg) (newestFile agg))
      | Raised e => breakdown !! dir = Some (failed (Js.message e))
      end.
Proof.
  assert (Hvalid : ∀ dir, dir ∈ ["a"; "b"; "c"] → invalid (share sampleWorld) dir = None).
  { intros dir Hin. repeat (apply elem_of_cons in Hin as [->|Hin]; [reflexivity|]).
    by apply elem_of_nil in Hin. }
  split; [reflexivity|]. split; [reflexivity|]. split; [reflexivity|].
  split; [discriminate|]. split; [exact Hvalid|].
  exact (checkFileStorage_directories listedTarget sampleWorld ["a"; "b"; "c"]
           eq_refl eq_refl eq_refl ltac:(discriminate) Hvalid).
Defined.

Lemma checkFileStorage_root_calls storage env :
  hasAccess storage = true →
  exists_ (share env) = Returned true →
  explicit (directories storage) = false →
  calls (checkFileStorage (Some storage) env) =
  ShareExists :: calls (countFilesRecursively (getDirectoryClient (share env) "") "").
Proof.
  intros Haccess Hexists Hexp.
  destruct (newShareClient_answer env _ (exists_answer env _ Hexists)) as [Hnew _].
  unfold checkFileStorage. rewrite resolveShareClient_object, Haccess, Hnew, bind_ret.
  unfold probeShare, countFiles. cbn [prop]. rewrite Hexists, !bind_ret, Hexp.
  destruct (countFilesRecursively _ "") as [t [agg|e]]; simpl;
    rewrite ?Hexp; simpl; by rewrite ?app_nil_r.
Qed.

(** C9, as the code has it. The probe of a file-store target always
    returns a result, and the result has a [directoryBreakdown] exactly
    when its status is [ok] and the target gave an explicit non-empty
    [directories] list; an error result never has one.  Without such a
    list, with an access mode and an existing share, the probe checks the
    share and traverses once from its root: an [ok] result reports that
    traversal's count and no breakdown. *)
Theorem directoryBreakdown_when_ok (storage : Storage) (env : World) :
  ∃ r, completion (checkFileStorage (Some storage) env) = Returned r ∧
       (is_Some (r_directoryBreakdown r) ↔
        r_status r = ok ∧ explicit (directories storage) = true) ∧
       (explicit (directories storage) = false →
        hasAccess storage = true →
        exists_ (share env) = Returned true →
        calls (checkFileStorage (Some storage) env) =
          ShareExists
          :: calls (countFilesRecursively (getDirectoryClient (share env) "") "") ∧
        r_directoryBreakdown r = None ∧
        match completion (countFilesRecursively (getDirectoryClient (share env) "") "") with
        | Returned agg =>
            r_status r = ok ∧ r_fileCount r = count agg ∧
            r_message r = Js.number_to_string (count agg) +:+ " files found"
        | Raised e =>
            r_status r = error ∧ r_fileCount r = 0 ∧ r_message r = Js.message e
        end).
Proof.
  rewrite checkFileStorage_object. eexists. split; [reflexivity|].
  unfold outcome. split.
  - unfold counted_result, traversal.
    destruct (hasAccess storage); [|by split; [intros [? [=]] | intros [[=] _]]].
    destruct (exists_ (share env)) as [[|]|e];
      try (by split; [intros [? [=]] | intros [[=] _]]).
    destruct (explicit (directories storage)).
    + destruct (firstInvalid (share env) _);
        [by split; [intros [? [=]] | intros [[=] _]]|].
      split; [done | by eexists].
    + destruct (completion (countFilesRecursively _ "")); simpl;
        by split; [intros [? [=]] | intros [_ [=]]].
  - intros Hexp Haccess Hexists. split; [by apply checkFileStorage_root_calls|].
    rewrite Haccess, Hexists. unfold counted_result, traversal. rewrite Hexp.
    destruct (completion (countFilesRecursively _ "")); done.
Qed.

(** C9 as stated fails: the probe of [listedTarget], which lists three
    directories, returns a result without [directoryBreakdown] when the
    share does not exist. *)
Lemma directoryBreakdown_absent_on_error :
  ¬ (∀ (storage : Storage) (env : World) (r : Result),
       completion (checkFileStorage (Some storage) env) = Returned r →
       (is_Some (r_directoryBreakdown r) ↔ explicit (directories storage) = true)).
Proof.
  intros claim.
  destruct (claim listedTarget missingShare _ eq_refl) as [_ back].
  destruct (back eq_refl) as [? [=]].
Qed.

End StoreProbe.

(** ** The cycle: [checkAll] of both monitors and [runMonitoring] *)

Section Results.
Context {R : Type}.
Implicit Types (kvs : list (string * R)) (results : Js.Dict R).

(** After a run of stores, a key other than [__proto__] holds what was
    stored under it last. *)
Lemma foldl_store_last kvs results k :
  k ≠ "__proto__" →
  Js.own (foldl store results kvs) !! k =
  match last (filter (fun kv => kv.1 = k) kvs) with
  | Some kv => Some kv.2
  | None => Js.own results !! k
  end.
Proof.
  intros Hk. revert results. induction kvs as [|kv rest IH]; intros results; [done|].
  cbn [foldl]. rewrite IH, filter_cons. unfold store at 1. rewrite own_assign.
  destruct (decide (kv.1 = k)) as [<-|Hne].
  - rewrite last_cons. destruct (last (filter _ rest)); [done|].
    by rewrite decide_True.
  - destruct (last (filter _ rest)); [done|].
    rewrite decide_False; [done|]. by intros [? _].
Qed.

(** No store creates a property [__proto__]. *)
Lemma foldl_store_proto_key kvs results :
  Js.own (foldl store results kvs) !! "__proto__" = Js.own results !! "__proto__".
Proof.
  revert results. induction kvs as [|kv rest IH]; intros results; [done|].
  cbn [foldl]. rewrite IH. unfold store. rewrite own_assign.
  rewrite decide_False; [done|]. by intros [_ ?].
Qed.

(** The prototype is what was stored last under [__proto__]. *)
Lemma foldl_store_proto kvs results :
  Js.proto (foldl store results kvs) =
  match last (filter (fun kv => kv.1 = "__proto__") kvs) with
  | Some kv => Some kv.2
  | None => Js.proto results
  end.
Proof.
  revert results. induction kvs as [|kv rest IH]; intros results; [done|].
  cbn [foldl]. rewrite IH, filter_cons. unfold store at 1. rewrite proto_assign.
  destruct (decide (kv.1 = "__proto__")) as [Hp|Hp].
  - rewrite last_cons. by destruct (last (filter _ rest)).
  - by destruct (last (filter _ rest)).
Qed.

Lemma foldl_store_dom kvs results :
  "__proto__" ∉ kvs.*1 →
  dom (Js.own (foldl store results kvs)) = list_to_set kvs.*1 ∪ dom (Js.own results).
Proof.
  revert results. induction kvs as [|kv rest IH]; intros results Hp; simpl.
  - set_solver.
  - simpl in Hp. apply not_elem_of_cons in Hp as [Hkv Hp].
    rewrite IH by done. unfold store. rewrite dom_assign by done. set_solver.
Qed.

Lemma foldl_store_size kvs :
  NoDup kvs.*1 → "__proto__" ∉ kvs.*1 →
  size (Js.own (foldl store (Js.emptyDict : Js.Dict R) kvs)) = length kvs.
Proof.
  intros Hnd Hp. rewrite <-size_dom, foldl_store_dom by done.
  cbn [Js.emptyDict Js.own]. rewrite dom_empty_L, (right_id_L ∅ (∪)).
  rewrite size_list_to_set by done. apply length_fmap.
Qed.

End Results.

Section Filters.
Context {A : Type}.

Lemma filter_none (P : A → Prop) `{∀ x, Decision (P x)} (l : list A) :
  (∀ x, x ∈ l → ¬ P x) → filter P l = [].
Proof.
  induction l as [|x rest IH]; intros Hnone; [done|].
  rewrite filter_cons_False by (apply Hnone; by left).
  apply IH. intros y Hy. apply Hnone. by right.
Qed.

(** Among elements with pairwise distinct keys, one key selects one
    element. *)
Lemma filter_key_unique (f : A → string) (l : list A) (x : A) :
  NoDup (f <$> l) → x ∈ l → filter (fun y => f y = f x) l = [x].
Proof.
  induction l as [|y rest IH]; intros Hnd Hin; [by apply elem_of_nil in Hin|].
  cbn [fmap list_fmap] in Hnd. apply NoDup_cons in Hnd as [Hfresh Hnd].
  apply elem_of_cons in Hin as [->|Hin].
  - rewrite filter_cons_True by done. f_equal. apply filter_none.
    intros z Hz Heq. apply Hfresh. rewrite <-Heq. by apply list_elem_of_fmap_2.
  - rewrite filter_cons_False; [by apply IH|].
    intros Heq. apply Hfresh. rewrite Heq. by apply list_elem_of_fmap_2.
Qed.

Lemma filter_key_perm (f : A → string) (l l' : list A) (k : string) :
  l ≡ₚ l' → NoDup (f <$> l) →
  filter (fun y => f y = k) l = filter (fun y => f y = k) l'.
Proof.
  intros Hperm Hnd.
  assert (Hnd' : NoDup (f <$> l')) by by rewrite <-Hperm.
  destruct (decide (k ∈ f <$> l)) as [Hin|Hnin].
  - apply list_elem_of_fmap_1 in Hin as (x & -> & Hin).
    rewrite (filter_key_unique f l x Hnd Hin).
    symmetry. apply filter_key_unique; [done | by rewrite <-Hperm].
  - rewrite !filter_none; [done | |].
    + intros x Hx Heq. apply Hnin. rewrite <-Heq. apply list_elem_of_fmap_2.
      by rewrite Hperm.
    + intros x Hx Heq. apply Hnin. rewrite <-Heq. by apply list_elem_of_fmap_2.
Qed.

End Filters.

(** What the two [checkAll] have in common. *)
Section CheckAll.
Context {Target World Result : Type}.
Variable key : Target → string.
Variable probe : Target → World → Result.
Variable task : option Target * World → Async (string * Result).
Variable settle :
  list (option Target * World) → Js.Dict Result → Completion (Js.Dict Result).

Hypothesis settle_nil : ∀ results, settle [] results = Returned results.
Hypothesis settle_cons : ∀ t rest results,
  settle (t :: rest) results =
  match completion (task t) with
  | Returned (k, result) => settle rest (Js.assign results k result)
  | Raised e => Raised e
  end.
Hypothesis task_object : ∀ x env,
  completion (task (Some x, env)) = Returned (key x, probe x env).

Lemma settle_objects (l : list (Target * World)) results :
  settle (object <$> l) results = Returned (foldl store results (entry key probe <$> l)).
Proof.
  revert results. induction l as [|[x env] rest IH]; intros results; simpl.
  - apply settle_nil.
  - rewrite settle_cons. unfold object at 1. simpl. rewrite task_object. apply IH.
Qed.

Lemma entry_keys (l : list (Target * World)) :
  (entry key probe <$> l).*1 = key ∘ fst <$> l.
Proof. induction l as [|t rest IH]; [done|]. cbn [fmap list_fmap]. by f_equal. Qed.

Lemma filter_entry (completed : list (Target * World)) k :
  filter (fun kv => kv.1 = k) (entry key probe <$> completed)
  = entry key probe <$> filter (fun t => key t.1 = k) completed.
Proof.
  induction completed as [|t rest IH]; [done|].
  cbn [fmap list_fmap]. rewrite !filter_cons. cbn [entry fst].
  destruct (decide (key t.1 = k)); by rewrite IH.
Qed.

(** A task that rejects makes the whole [checkAll] reject. *)
Lemma settle_rejects l results t e :
  t ∈ l → completion (task t) = Raised e → ∃ e', settle l results = Raised e'.
Proof.
  revert results. induction l as [|t' rest IH]; intros results Hin Hraise.
  - by apply elem_of_nil in Hin.
  - rewrite settle_cons. apply elem_of_cons in Hin as [<-|Hin].
    + rewrite Hraise. by eexists.
    + destruct (completion (task t')) as [[k result]|e']; [by apply IH | by eexists].
Qed.

(** With objects only, [checkAll] fulfils.  A key other than [__proto__]
    holds the result of the probe that completed last among the targets
    with that key, and nothing when no target has it; there is no property
    [__proto__]; and the prototype is the result of the probe that
    completed last among the targets whose key is [__proto__]. *)
Lemma settle_last (completed : list (Target * World)) :
  ∃ results,
    settle (object <$> completed) Js.emptyDict = Returned results ∧
    (∀ k, k ≠ "__proto__" →
       Js.own results !! k =
       (fun t => probe t.1 t.2) <$> last (filter (fun t => key t.1 = k) completed)) ∧
    Js.own results !! "__proto__" = None ∧
    Js.proto results =
    (fun t => probe t.1 t.2) <$> last (filter (fun t => key t.1 = "__proto__") completed).
Proof.
  rewrite settle_objects.
  eexists. split; [reflexivity|]. split; [|split].
  - intros k Hk. rewrite foldl_store_last, filter_entry, fmap_last by done.
    by destruct (last (filter _ completed)).
  - by rewrite foldl_store_proto_key.
  - rewrite foldl_store_proto, filter_entry, fmap_last.
    by destruct (last (filter _ completed)).
Qed.

(** In whatever order the probes complete: when the keys are pairwise
    distinct and none is [__proto__], the dictionary has one entry per
    target, the target's own result. *)
Lemma settle_complete (configured completed : list (Target * World)) :
  completed ≡ₚ configured →
  NoDup (key ∘ fst <$> configured) →
  "__proto__" ∉ (key ∘ fst <$> configured) →
  ∃ results,
    settle (object <$> completed) Js.emptyDict = Returned results ∧
    dom (Js.own results) = list_to_set (key ∘ fst <$> configured) ∧
    size (Js.own results) = length configured ∧
    Js.proto results = None ∧
    ∀ x env, (x, env) ∈ configured → Js.own results !! key x = Some (probe x env).
Proof.
  intros Hperm Hnd Hp. rewrite <-Hperm in Hnd, Hp.
  rewrite settle_objects. eexists. split; [reflexivity|].
  rewrite <-entry_keys in Hnd, Hp. split; [|split; [|split]].
  - rewrite foldl_store_dom by done. cbn [Js.emptyDict Js.own].
    rewrite dom_empty_L, (right_id_L ∅ (∪)), entry_keys. by rewrite Hperm.
  - rewrite foldl_store_size by done. rewrite length_fmap. by rewrite Hperm.
  - rewrite foldl_store_proto, filter_none; [done|].
    intros kv Hkv Heq. apply Hp. rewrite <-Heq. by apply list_elem_of_fmap_2.
  - intros x env Hin. rewrite <-Hperm in Hin.
    rewrite entry_keys in Hnd, Hp.
    rewrite foldl_store_last, filter_entry.
    + pose proof (filter_key_unique (key ∘ fst) completed (x, env) Hnd Hin) as Hf.
      cbn [compose fst] in Hf. by rewrite Hf.
    + intros Heq. apply Hp. rewrite <-Heq.
      by apply (list_elem_of_fmap_2 (key ∘ fst) _ (x, env)).
Qed.

Lemma settle_order (configured completed completed' : list (Target * World)) :
  completed ≡ₚ configured → completed' ≡ₚ configured →
  NoDup (key ∘ fst <$> configured) →
  settle (object <$> completed) Js.emptyDict = settle (object <$> completed') Js.emptyDict.
Proof.
  intros Hp Hp' Hnd.
  assert (Hperm : completed ≡ₚ completed') by by rewrite Hp, Hp'.
  assert (Hnd1 : NoDup (key ∘ fst <$> completed)) by by rewrite Hp.
  destruct (settle_last completed) as (m & -> & Hown & Hkey & Hproto).
  destruct (settle_last completed') as (m' & -> & Hown' & Hkey' & Hproto').
  f_equal. apply dict_eq.
  - apply map_eq. intros k. destruct (decide (k = "__proto__")) as [->|Hk].
    + by rewrite Hkey, Hkey'.
    + rewrite Hown, Hown' by done.
      pose proof (filter_key_perm (key ∘ fst) completed completed' k Hperm Hnd1) as Hf.
      cbn [compose] in Hf. by rewrite Hf.
  - rewrite Hproto, Hproto'.
    pose proof (filter_key_perm (key ∘ fst) completed completed' "__proto__" Hperm Hnd1)
      as Hf.
    cbn [compose] in Hf. by rewrite Hf.
Qed.

(** When [checkAll] fulfils, every configured object whose key is not
    [__proto__] has an entry under its key; one whose key is [__proto__]
    has none, and the dictionary has a prototype of its own. *)
Lemma settle_has_entry completed results results' x env :
  (Some x, env) ∈ completed →
  settle completed results = Returned results' →
  (key x ≠ "__proto__" → is_Some (Js.own results' !! key x)) ∧
  (key x = "__proto__" → is_Some (Js.proto results')) ∧
  Js.own results' !! "__proto__" = Js.own results !! "__proto__".
Proof.
  assert (Hkeep : ∀ l m m' k,
            is_Some (Js.own m !! k) → settle l m = Returned m' →
            is_Some (Js.own m' !! k)).
  { intros l. induction l as [|t rest IH]; intros m m' k Hk.
    - rewrite settle_nil. by intros [= <-].
    - rewrite settle_cons. destruct (completion (task t)) as [[k' r]|e]; [|done].
      apply IH. rewrite own_assign. by destruct (decide _). }
  assert (Hkeep' : ∀ l m m',
            is_Some (Js.proto m) → settle l m = Returned m' → is_Some (Js.proto m')).
  { intros l. induction l as [|t rest IH]; intros m m' Hk.
    - rewrite settle_nil. by intros [= <-].
    - rewrite settle_cons. destruct (completion (task t)) as [[k' r]|e]; [|done].
      apply IH. rewrite proto_assign. by destruct (decide _). }
  assert (Hnone : ∀ l m m',
            settle l m = Returned m' →
            Js.own m' !! "__proto__" = Js.own m !! "__proto__").
  { intros l. induction l as [|t rest IH]; intros m m'.
    - rewrite settle_nil. by intros [= <-].
    - rewrite settle_cons. destruct (completion (task t)) as [[k' r]|e]; [|done].
      intros Hs. rewrite (IH _ _ Hs), own_assign.
      rewrite decide_False; [done|]. by intros [_ ?]. }
  intros Hin Hs. split; [|split; [|by apply (Hnone completed)]].
  - intros Hk. revert results Hin Hs.
    induction completed as [|t rest IH]; intros results Hin.
    + by apply elem_of_nil in Hin.
    + rewrite settle_cons. apply elem_of_cons in Hin as [<-|Hin].
      * rewrite task_object. apply Hkeep. rewrite own_assign, decide_True by done.
        by eexists.
      * destruct (completion (task t)) as [[k' r]|e]; [|done]. by apply IH.
  - intros Hk. revert results Hin Hs.
    induction completed as [|t rest IH]; intros results Hin.
    + by apply elem_of_nil in Hin.
    + rewrite settle_cons. apply elem_of_cons in Hin as [<-|Hin].
      * rewrite task_object. apply Hkeep'. rewrite proto_assign, decide_True by done.
        by eexists.
      * destruct (completion (task t)) as [[k' r]|e]; [|done]. by apply IH.
Qed.

End CheckAll.

Module Cycle.
Import Samples.

Lemma website_task_object w env :
  completion (WebsiteMonitor.task (Some w, env))
  = Returned (WebsiteMonitor.url w, Endpoint.outcome w env).
Proof.
  unfold WebsiteMonitor.task. rewrite completion_bind. cbn [fst snd].
  rewrite EndpointProbe.checkWebsite_object. reflexivity.
Qed.

Lemma storage_task_object s env :
  completion (AzureFileMonitor.task (Some s, env))
  = Returned (AzureFileMonitor.key s, Store.outcome s env).
Proof.
  unfold AzureFileMonitor.task. rewrite completion_bind. cbn [fst snd].
  rewrite StoreProbe.checkFileStorage_object. reflexivity.
Qed.

(** The key of a store target, in the words of the specification. *)
Lemma key_cases (s : AzureFileMonitor.Storage) :
  (∀ a, AzureFileMonitor.accountName s = Some a → a ≠ "" →
        AzureFileMonitor.key s = a +:+ "/" +:+ AzureFileMonitor.shareName s) ∧
  (∀ n, AzureFileMonitor.accountName s = None →
        AzureFileMonitor.name s = Some n → n ≠ "" →
        AzureFileMonitor.key s = n) ∧
  (∀ u, AzureFileMonitor.accountName s = None →
        AzureFileMonitor.name s = None →
        AzureFileMonitor.sasUrl s = Some u →
        AzureFileMonitor.key s = u).
Proof.
  unfold AzureFileMonitor.key, Js.or_else, Js.truthy. repeat split.
  - intros a -> Ha. apply String.eqb_neq in Ha. by rewrite Ha.
  - intros n -> -> Hn. apply String.eqb_neq in Hn. by rewrite Hn.
  - intros u -> -> ->. done.
Qed.

(** C1, as the code has it. When the configured targets are objects whose
    keys are pairwise distinct and none of whose keys is [__proto__], both
    [checkAll] fulfil, in whatever order the probes complete, with a
    dictionary that has exactly one entry per configured target: the
    target's own result, under the URL for a website and, for a store,
    under [accountName/shareName], or the name, or the SAS URL when there
    is no account name. *)
Theorem checkAll_one_entry_per_key
    (websites websitesDone : list (WebsiteMonitor.Website * WebsiteMonitor.World))
    (storages storagesDone : list (AzureFileMonitor.Storage * AzureFileMonitor.World))
    (Hwebsites : websitesDone ≡ₚ websites)
    (Hstorages : storagesDone ≡ₚ storages)
    (Hurls : NoDup (WebsiteMonitor.url ∘ fst <$> websites))
    (Hkeys : NoDup (AzureFileMonitor.key ∘ fst <$> storages))
    (Hurl : "__proto__" ∉ (WebsiteMonitor.url ∘ fst <$> websites))
    (Hkey : "__proto__" ∉ (AzureFileMonitor.key ∘ fst <$> storages)) :
  ∃ websiteResults azureFileResults,
    WebsiteMonitor.checkAll (object <$> websitesDone) = Returned websiteResults ∧
    AzureFileMonitor.checkAll (object <$> storagesDone) = Returned azureFileResults ∧
    size (Js.own websiteResults) = length websites ∧
    size (Js.own azureFileResults) = length storages ∧
    dom (Js.own websiteResults) = list_to_set (WebsiteMonitor.url ∘ fst <$> websites) ∧
    dom (Js.own azureFileResults) = list_to_set (AzureFileMonitor.key ∘ fst <$> storages) ∧
    (∀ w env, (w, env) ∈ websites →
       ∃ r, completion (WebsiteMonitor.checkWebsite (Some w) env) = Returned r ∧
            Js.own websiteResults !! WebsiteMonitor.url w = Some r) ∧
    (∀ s env, (s, env) ∈ storages →
       ∃ r, completion (AzureFileMonitor.checkFileStorage (Some s) env) = Returned r ∧
            Js.own azureFileResults !! AzureFileMonitor.key s = Some r ∧
            (∀ a, AzureFileMonitor.accountName s = Some a → a ≠ "" →
                  AzureFileMonitor.key s = a +:+ "/" +:+ AzureFileMonitor.shareName s) ∧
            (∀ n, AzureFileMonitor.accountName s = None →
                  AzureFileMonitor.name s = Some n → n ≠ "" →
                  AzureFileMonitor.key s = n) ∧
            (∀ u, AzureFileMonitor.accountName s = None →
                  AzureFileMonitor.name s = None →
                  AzureFileMonitor.sasUrl s = Some u →
                  AzureFileMonitor.key s = u)).
Proof.
  destruct (settle_complete WebsiteMonitor.url Endpoint.outcome
              WebsiteMonitor.task WebsiteMonitor.settle
              (fun _ => eq_refl) (fun _ _ _ => eq_refl) website_task_object
              websites websitesDone Hwebsites Hurls Hurl)
    as (websiteResults & Hw & Hwdom & Hwsize & _ & Hwlookup).
  destruct (settle_complete AzureFileMonitor.key Store.outcome
              AzureFileMonitor.task AzureFileMonitor.settle
              (fun _ => eq_refl) (fun _ _ _ => eq_refl) storage_task_object
              storages storagesDone Hstorages Hkeys Hkey)
    as (azureFileResults & Hs & Hsdom & Hssize & _ & Hslookup).
  exists websiteResults, azureFileResults.
  repeat (split; [done|]). split.
  - intros w env Hin. exists (Endpoint.outcome w env).
    split; [apply EndpointProbe.checkWebsite_object | by apply Hwlookup].
  - intros s env Hin. exists (Store.outcome s env).
    split; [apply StoreProbe.checkFileStorage_object|].
    split; [by apply Hslookup | apply key_cases].
Qed.

Lemma checkAll_one_entry_per_key_witness :
  reverse sampleWebsites ≡ₚ sampleWebsites ∧
  reverse sampleStorages ≡ₚ sampleStorages ∧
  NoDup (WebsiteMonitor.url ∘ fst <$> sampleWebsites) ∧
  NoDup (AzureFileMonitor.key ∘ fst <$> sampleStorages) ∧
  ("__proto__" ∉ (WebsiteMonitor.url ∘ fst <$> sampleWebsites)) ∧
  ("__proto__" ∉ (AzureFileMonitor.key ∘ fst <$> sampleStorages)) ∧
  ∃ websiteResults azureFileResults,
    WebsiteMonitor.checkAll (object <$> reverse sampleWebsites) = Returned websiteResults ∧
    AzureFileMonitor.checkAll (object <$> reverse sampleStorages) = Returned azureFileResults ∧
    size (Js.own websiteResults) = 2%nat ∧
    size (Js.own azureFileResults) = 2%nat.
Proof.
  assert (Hw : reverse sampleWebsites ≡ₚ sampleWebsites) by apply perm_swap.
  assert (Hs : reverse sampleStorages ≡ₚ sampleStorages) by apply perm_swap.
  assert (Hurls : NoDup (WebsiteMonitor.url ∘ fst <$> sampleWebsites))
    by (apply (bool_decide_unpack _); vm_compute; exact I).
  assert (Hkeys : NoDup (AzureFileMonitor.key ∘ fst <$> sampleStorages))
    by (apply (bool_decide_unpack _); vm_compute; exact I).
  assert (Hurl : "__proto__" ∉ (WebsiteMonitor.url ∘ fst <$> sampleWebsites))
    by (apply (bool_decide_unpack _); vm_compute; exact I).
  assert (Hkey : "__proto__" ∉ (AzureFileMonitor.key ∘ fst <$> sampleStorages))
    by (apply (bool_decide_unpack _); vm_compute; exact I).
  repeat (split; [assumption|]).
  destruct (checkAll_one_entry_per_key _ _ _ _ Hw Hs Hurls Hkeys Hurl Hkey)
    as (websiteResults & azureFileResults & H1 & H2 & H3 & H4 & _).
  exists websiteResults, azureFileResults. repeat split; assumption.
Defined.

(** C1 as stated fails: two configured websites with the same URL share
    one entry, so the dictionary has fewer entries than targets. *)
Lemma checkAll_merges_equal_urls :
  ¬ (∀ websites : list (WebsiteMonitor.Website * WebsiteMonitor.World),
       ∃ websiteResults,
         WebsiteMonitor.checkAll (object <$> websites) = Returned websiteResults ∧
         size (Js.own websiteResults) = length websites).
Proof.
  intros claim.
  destruct (claim [(Endpoint.okExample, Endpoint.okWorld);
                   (Endpoint.okExample, Endpoint.okWorld)])
    as (websiteResults & Hresults & Hsize).
  vm_compute in Hresults. injection Hresults as <-.
  vm_compute in Hsize. discriminate.
Qed.

(** C2, as the code has it. The probe of a target object converts every
    failure into a result itself: a request that fails gives a [down]
    result; the store probe's result is [ok] only when there is an access
    mode, the share exists and the count went through, and is an [error]
    result with [fileCount] 0 otherwise.  So both
    [checkAll] over objects fulfil, and under every key other than
    [__proto__] the dictionary holds the result of the probe that
    completed last among the targets with that key, which is a result of
    that target's own probe, whatever became of the others; the cycle
    publishes these dictionaries.  [checkAll] has no catch around a task:
    when any task rejects, [checkAll] rejects, [runMonitoring] catches
    that and keeps the previous results.  In every case [runMonitoring]
    returns: either the previous results untouched or a complete new
    snapshot. *)
Theorem runMonitoring_contains_failures
    (previous : Server.MonitoringResults)
    (websites : list (WebsiteMonitor.Website * WebsiteMonitor.World))
    (storages : list (AzureFileMonitor.Storage * AzureFileMonitor.World))
    (websiteTasks : list (option WebsiteMonitor.Website * WebsiteMonitor.World))
    (azureTasks : list (option AzureFileMonitor.Storage * AzureFileMonitor.World))
    (clock : Z) :
  (∀ w env,
     ∃ r, completion (WebsiteMonitor.checkWebsite (Some w) env) = Returned r ∧
          ∀ e, completion (WebsiteMonitor.axios_get (WebsiteMonitor.url w)
                             (WebsiteMonitor.wire env)) = Raised e →
               WebsiteMonitor.r_status r = WebsiteMonitor.down ∧
               WebsiteMonitor.r_statusCode r = (WebsiteMonitor.classify e).1 ∧
               WebsiteMonitor.r_message r = (WebsiteMonitor.classify e).2) ∧
  (∀ s env,
     ∃ r, completion (AzureFileMonitor.checkFileStorage (Some s) env) = Returned r ∧
          (AzureFileMonitor.r_status r = AzureFileMonitor.ok ↔
           Store.hasAccess s = true ∧
           AzureFileMonitor.exists_ (AzureFileMonitor.share env) = Returned true ∧
           if AzureFileMonitor.explicit (AzureFileMonitor.directories s)
           then Store.firstInvalid (AzureFileMonitor.share env)
                  (default [] (AzureFileMonitor.directories s)) = None
           else ∃ agg,
                  completion (AzureFileMonitor.countFilesRecursively
                                (AzureFileMonitor.getDirectoryClient
                                   (AzureFileMonitor.share env) "") "")
                  = Returned agg) ∧
          (AzureFileMonitor.r_status r = AzureFileMonitor.error →
           AzureFileMonitor.r_fileCount r = 0)) ∧
  (∃ websiteResults azureFileResults,
     WebsiteMonitor.checkAll (object <$> websites) = Returned websiteResults ∧
     AzureFileMonitor.checkAll (object <$> storages) = Returned azureFileResults ∧
     Server.runMonitoring previous (object <$> websites) (object <$> storages) clock
     = {| Server.websites := websiteResults;
          Server.azureFiles := azureFileResults;
          Server.lastUpdate := Some clock |} ∧
     (∀ k, k ≠ "__proto__" →
        match last (filter (fun t => WebsiteMonitor.url t.1 = k) websites) with
        | Some t =>
            ∃ r, completion (WebsiteMonitor.checkWebsite (Some t.1) t.2) = Returned r ∧
                 Js.own websiteResults !! k = Some r
        | None => Js.own websiteResults !! k = None
        end) ∧
     (∀ k, k ≠ "__proto__" →
        match last (filter (fun t => AzureFileMonitor.key t.1 = k) storages) with
        | Some t =>
            ∃ r, completion (AzureFileMonitor.checkFileStorage (Some t.1) t.2) = Returned r ∧
                 Js.own azureFileResults !! k = Some r
        | None => Js.own azureFileResults !! k = None
        end)) ∧
  (∀ t e, t ∈ websiteTasks → completion (WebsiteMonitor.task t) = Raised e →
     (∃ e', WebsiteMonitor.checkAll websiteTasks = Raised e') ∧
     Server.runMonitoring previous websiteTasks azureTasks clock = previous) ∧
  (∀ t e, t ∈ azureTasks → completion (AzureFileMonitor.task t) = Raised e →
     (∃ e', AzureFileMonitor.checkAll azureTasks = Raised e') ∧
     Server.runMonitoring previous websiteTasks azureTasks clock = previous) ∧
  (Server.runMonitoring previous websiteTasks azureTasks clock = previous ∨
   ∃ websiteResults azureFileResults,
     WebsiteMonitor.checkAll websiteTasks = Returned websiteResults ∧
     AzureFileMonitor.checkAll azureTasks = Returned azureFileResults ∧
     Server.runMonitoring previous websiteTasks azureTasks clock
     = {| Server.websites := websiteResults;
          Server.azureFiles := azureFileResults;
          Server.lastUpdate := Some clock |}).
Proof.
  split; [|split; [|split; [|split; [|split]]]].
  - intros w env. rewrite EndpointProbe.checkWebsite_object.
    eexists. split; [reflexivity|]. intros e He.
    unfold Endpoint.outcome. by rewrite He.
  - intros s env. rewrite StoreProbe.checkFileStorage_object.
    eexists. split; [reflexivity|]. unfold Store.outcome.
    destruct (Store.hasAccess s); [|by split; [split; [|intros [[=] _]]|]].
    destruct (AzureFileMonitor.exists_ (AzureFileMonitor.share env)) as [[|]|e];
      [| by split; [split; [|intros (_ & [=] & _)]|]
       | by split; [split; [|intros (_ & [=] & _)]|]].
    unfold Store.counted_result, Store.traversal.
    destruct (AzureFileMonitor.explicit (AzureFileMonitor.directories s)).
    + destruct (Store.firstInvalid _ _);
        [by split; [split; [|intros (_ & _ & [=])]|] | done].
    + destruct (completion (AzureFileMonitor.countFilesRecursively _ "")) as [agg|e].
      * split; [|done]. split; [|done]. intros _. split; [done|]. split; [done|].
        by eexists.
      * split; [|done]. split; [done|]. by intros (_ & _ & agg & [=]).
  - destruct (settle_last WebsiteMonitor.url Endpoint.outcome
                WebsiteMonitor.task WebsiteMonitor.settle
                (fun _ => eq_refl) (fun _ _ _ => eq_refl) website_task_object
                websites)
      as (websiteResults & Hw & Hwl & _).
    destruct (settle_last AzureFileMonitor.key Store.outcome
                AzureFileMonitor.task AzureFileMonitor.settle
                (fun _ => eq_refl) (fun _ _ _ => eq_refl) storage_task_object
                storages)
      as (azureFileResults & Hs & Hsl & _).
    exists websiteResults, azureFileResults.
    unfold Server.runMonitoring, WebsiteMonitor.checkAll, AzureFileMonitor.checkAll.
    rewrite Hw, Hs. split; [done|]. split; [done|]. split; [done|]. split.
    + intros k Hk. rewrite (Hwl k Hk).
      destruct (last (filter _ websites)) as [t|]; [|done].
      eexists. split; [apply EndpointProbe.checkWebsite_object | done].
    + intros k Hk. rewrite (Hsl k Hk).
      destruct (last (filter _ storages)) as [t|]; [|done].
      eexists. split; [apply StoreProbe.checkFileStorage_object | done].
  - intros t e Hin Hraise.
    destruct (settle_rejects WebsiteMonitor.task WebsiteMonitor.settle
                (fun _ _ _ => eq_refl) websiteTasks Js.emptyDict t e Hin Hraise)
      as [e' He'].
    unfold Server.runMonitoring, WebsiteMonitor.checkAll. rewrite He'. eauto.
  - intros t e Hin Hraise.
    destruct (settle_rejects AzureFileMonitor.task AzureFileMonitor.settle
                (fun _ _ _ => eq_refl) azureTasks Js.emptyDict t e Hin Hraise)
      as [e' He'].
    unfold Server.runMonitoring, AzureFileMonitor.checkAll. rewrite He'.
    split; [eauto|]. by destruct (WebsiteMonitor.checkAll websiteTasks).
  - unfold Server.runMonitoring.
    destruct (WebsiteMonitor.checkAll websiteTasks) as [websiteResults|e]; [|by left].
    destruct (AzureFileMonitor.checkAll azureTasks) as [azureFileResults|e]; [|by left].
    right. by exists websiteResults, azureFileResults.
Qed.

(** A cycle over the two sample websites: the result of the probe that
    failed is stored under its URL, next to the result of the other. *)
Example failed_probe_is_stored :
  ∃ results,
    WebsiteMonitor.checkAll (object <$> sampleWebsites) = Returned results ∧
    WebsiteMonitor.r_status <$> Js.own results !! "https://ok.example"
    = Some WebsiteMonitor.up ∧
    WebsiteMonitor.r_status <$> Js.own results !! "https://down.example"
    = Some WebsiteMonitor.down ∧
    WebsiteMonitor.r_message <$> Js.own results !! "https://down.example"
    = Some "Connection refused".
Proof. eexists. split; [reflexivity|]. vm_compute. done. Qed.

(** C2 as stated fails: nothing catches a task that rejects.  With a
    [null] element in the configured websites, the probe of that element
    throws from its own [catch] block, [checkAll] rejects although the
    other target was probed, and the cycle publishes nothing. *)
Lemma rejected_task_aborts_cycle :
  completion (WebsiteMonitor.checkWebsite (Some Endpoint.okExample) Endpoint.okWorld)
  = Returned (Endpoint.outcome Endpoint.okExample Endpoint.okWorld) ∧
  completion (WebsiteMonitor.checkWebsite None Endpoint.okWorld)
  = Raised (Js.nullRead "url") ∧
  WebsiteMonitor.checkAll
    [(Some Endpoint.okExample, Endpoint.okWorld); (None, Endpoint.okWorld)]
  = Raised (Js.nullRead "url") ∧
  Server.runMonitoring Server.initial
    [(Some Endpoint.okExample, Endpoint.okWorld); (None, Endpoint.okWorld)]
    [] 1700000000200
  = Server.initial ∧
  ¬ (∀ websiteTasks, ∃ websiteResults,
       WebsiteMonitor.checkAll websiteTasks = Returned websiteResults).
Proof.
  split; [reflexivity|]. split; [reflexivity|]. split; [reflexivity|].
  split; [reflexivity|].
  intros claim. destruct (claim [(None, Endpoint.okWorld)]) as [? [=]].
Qed.

End Cycle.

(** ** The calls of a computation *)

Section AsyncCalls.
Context {A B : Type}.

Lemma calls_bind (m : Async A) (k : A → Async B) :
  calls (bind m k) =
  match completion m with
  | Returned a => calls m ++ calls (k a)
  | Raised e => calls m
  end.
Proof.
  destruct m as [t [a|e]]; simpl; [|reflexivity].
  destruct (k a); reflexivity.
Qed.

Lemma calls_try_catch (m : Async A) (h : Js.Error → Async A) :
  calls (try_catch m h) =
  match completion m with
  | Returned a => calls m
  | Raised e => calls m ++ calls (h e)
  end.
Proof.
  destruct m as [t [a|e]]; simpl; [reflexivity|].
  destruct (h e); reflexivity.
Qed.

End AsyncCalls.

(** ** More on the recursive traversal *)

Module TraversalFacts.
Import AzureFileMonitor Combination Tree Walk.

Lemma earliest_cons x l :
  earliest (x :: l) = absent_or Z.min (Some x) (earliest l).
Proof. reflexivity. Qed.

Lemma latest_cons x l :
  latest (x :: l) = absent_or Z.max (Some x) (latest l).
Proof. reflexivity. Qed.

Lemma earliest_app l1 l2 :
  earliest (l1 ++ l2) = absent_or Z.min (earliest l1) (earliest l2).
Proof.
  induction l1 as [|x l1 IH]; [reflexivity|].
  rewrite <-app_comm_cons, !earliest_cons, IH.
  apply Aggregation.absent_or_assoc, Z.min_assoc.
Qed.

Lemma latest_app l1 l2 :
  latest (l1 ++ l2) = absent_or Z.max (latest l1) (latest l2).
Proof.
  induction l1 as [|x l1 IH]; [reflexivity|].
  rewrite <-app_comm_cons, !latest_cons, IH.
  apply Aggregation.absent_or_assoc, Z.max_assoc.
Qed.

Lemma earliest_least l :
  (earliest l = None ↔ l = []) ∧
  (∀ m, earliest l = Some m → m ∈ l ∧ ∀ x, x ∈ l → m ≤ x).
Proof.
  induction l as [|y l [IHnone IHsome]]; simpl.
  - split; [done|]. intros m [=].
  - split; [by destruct (earliest l)|]. intros m Hm.
    destruct (earliest l) as [m'|] eqn:Hl; simpl in Hm; injection Hm as <-.
    + destruct (IHsome m' eq_refl) as [Hin Hle]. split.
      * destruct (Z.min_spec y m') as [[_ ->]|[_ ->]]; [by left | by right].
      * intros x [->|Hx]%elem_of_cons; [lia|]. specialize (Hle x Hx). lia.
    + assert (l = []) as -> by by apply IHnone.
      split; [by left|]. intros x [->|Hx]%elem_of_cons; [lia | by apply elem_of_nil in Hx].
Qed.

Lemma latest_greatest l :
  (latest l = None ↔ l = []) ∧
  (∀ m, latest l = Some m → m ∈ l ∧ ∀ x, x ∈ l → x ≤ m).
Proof.
  induction l as [|y l [IHnone IHsome]]; simpl.
  - split; [done|]. intros m [=].
  - split; [by destruct (latest l)|]. intros m Hm.
    destruct (latest l) as [m'|] eqn:Hl; simpl in Hm; injection Hm as <-.
    + destruct (IHsome m' eq_refl) as [Hin Hle]. split.
      * destruct (Z.max_spec y m') as [[_ ->]|[_ ->]]; [by right | by left].
      * intros x [->|Hx]%elem_of_cons; [lia|]. specialize (Hle x Hx). lia.
    + assert (l = []) as -> by by apply IHnone.
      split; [by left|]. intros x [->|Hx]%elem_of_cons; [lia | by apply elem_of_nil in Hx].
Qed.

Lemma combine_empty_l a : combine empty a = a.
Proof. rewrite Aggregation.combine_comm. apply Aggregation.combine_empty_r. Qed.

(** A file with a date, as an aggregate. *)
Lemma touch_combine x st :
  touch x {| count := count st + 1; oldestFile := oldestFile st;
             newestFile := newestFile st |}
  = combine st {| count := 1; oldestFile := Some x; newestFile := Some x |}.
Proof.
  rewrite <-Aggregation.merge_combine.
  destruct st as [c [o|] [n|]]; reflexivity.
Qed.

(** The traversal, as a function of the tree. *)
Lemma forAwait_summary :
  ∀ items path st,
    completion (forAwait items path st) =
    match firstErrorAmong items with
    | Some e => Raised e
    | None => Returned (combine st (summaryAmong items))
    end.
Proof.
  apply (listing_mut
    (fun d => ∀ path,
       completion (countFilesRecursively d path) =
       match firstError d with
       | Some e => Raised e
       | None => Returned (match d with Dir items => summaryAmong items end)
       end)
    (fun items => ∀ path st,
       completion (forAwait items path st) =
       match firstErrorAmong items with
       | Some e => Raised e
       | None => Returned (combine st (summaryAmong items))
       end)
    (fun item => ∀ rest,
       (∀ path st,
          completion (forAwait rest path st) =
          match firstErrorAmong rest with
          | Some e => Raised e
          | None => Returned (combine st (summaryAmong rest))
          end) →
       ∀ path st,
         completion (forAwait (ListItem item rest) path st) =
         match firstErrorAmong (ListItem item rest) with
         | Some e => Raised e
         | None => Returned (combine st (summaryAmong (ListItem item rest)))
         end)).
  - intros items IH path. rewrite Traversal.completion_countFilesRecursively, IH.
    cbn [firstError]. destruct (firstErrorAmong items); [done|].
    by rewrite combine_empty_l.
  - intros path st. simpl. by rewrite Aggregation.combine_empty_r.
  - done.
  - intros item IHitem rest IHrest. apply IHitem, IHrest.
  - intros n p rest IHrest path st.
    rewrite Traversal.completion_forAwait_file, IHrest. cbn [firstErrorAmong].
    destruct (firstErrorAmong rest); [done|]. f_equal.
    destruct p as [lastModified|e].
    + rewrite touch_combine, <-Aggregation.combine_assoc. reflexivity.
    + unfold combine, summaryAmong. cbn [filesAmong datesAmong count oldestFile newestFile].
      f_equal. lia.
  - intros n sub IHsub rest IHrest path st.
    rewrite Traversal.completion_forAwait_directory, IHsub. cbn [firstErrorAmong].
    destruct (firstError sub); [done|]. rewrite IHrest.
    destruct (firstErrorAmong rest); [done|]. f_equal.
    rewrite Aggregation.merge_combine, <-Aggregation.combine_assoc. f_equal.
    destruct sub as [items]. unfold combine, summaryAmong.
    cbn [filesAmong filesIn datesAmong datesIn count oldestFile newestFile].
    by rewrite earliest_app, latest_app.
  - intros n rest IHrest path st. cbn [forAwait firstErrorAmong]. rewrite IHrest.
    reflexivity.
Qed.

Lemma countFilesRecursively_summary d path :
  completion (countFilesRecursively d path) =
  match firstError d with
  | Some e => Raised e
  | None => Returned {| count := filesIn d;
                        oldestFile := earliest (datesIn d);
                        newestFile := latest (datesIn d) |}
  end.
Proof.
  destruct d as [items]. rewrite Traversal.completion_countFilesRecursively, forAwait_summary.
  cbn [firstError]. destruct (firstErrorAmong items); [done|].
  by rewrite combine_empty_l.
Qed.

Lemma listable_firstError d : listable d = true ↔ firstError d = None.
Proof.
  revert d. apply (client_mut
    (fun d => listable d = true ↔ firstError d = None)
    (fun items => listableItems items = true ↔ firstErrorAmong items = None)
    (fun item => ∀ rest,
       (listableItems rest = true ↔ firstErrorAmong rest = None) →
       (listableItems (ListItem item rest) = true ↔
        firstErrorAmong (ListItem item rest) = None))).
  - intros items IH. exact IH.
  - done.
  - intros e. simpl. split; intros [=].
  - intros item IHitem rest IHrest. apply IHitem, IHrest.
  - intros n p rest IHrest. exact IHrest.
  - intros n sub IHsub rest IHrest. cbn [listableItems firstErrorAmong].
    rewrite andb_true_iff, IHsub, IHrest.
    destruct (firstError sub); [|tauto]. split; [by intros [[=] _] | done].
  - intros n rest IHrest. exact IHrest.
Qed.

Lemma datesAmong_item item rest :
  datesAmong (ListItem item rest) = itemDates item ++ datesAmong rest.
Proof. destruct item as [n [lastModified|e]|n sub|n]; reflexivity. Qed.

Lemma earliest_perm l l' : l ≡ₚ l' → earliest l = earliest l'.
Proof.
  induction 1 as [|x l l' _ IH|x y l|l1 l2 l3 _ IH1 _ IH2].
  - done.
  - by rewrite !earliest_cons, IH.
  - rewrite !earliest_cons, !Aggregation.absent_or_assoc by apply Z.min_assoc.
    f_equal. apply Aggregation.absent_or_comm, Z.min_comm.
  - congruence.
Qed.

Lemma latest_perm l l' : l ≡ₚ l' → latest l = latest l'.
Proof.
  induction 1 as [|x l l' _ IH|x y l|l1 l2 l3 _ IH1 _ IH2].
  - done.
  - by rewrite !latest_cons, IH.
  - rewrite !latest_cons, !Aggregation.absent_or_assoc by apply Z.max_assoc.
    f_equal. apply Aggregation.absent_or_comm, Z.max_comm.
  - congruence.
Qed.

Lemma reorderedItems_dates l l' :
  reorderedItems l l' → datesAmong l ≡ₚ datesAmong l'.
Proof.
  apply (reorderedItems_mut
    (fun d d' => datesIn d ≡ₚ datesIn d')
    (fun l l' => datesAmong l ≡ₚ datesAmong l')).
  - intros ? ? _ IH. exact IH.
  - done.
  - intros n p k k' _ IH. rewrite !datesAmong_item. by rewrite IH.
  - intros n d d' k k' _ IHd _ IH. rewrite !datesAmong_item. cbn [itemDates].
    by rewrite IHd, IH.
  - intros n k k' _ IH. rewrite !datesAmong_item. by rewrite IH.
  - intros i j k k' _ IH. rewrite !datesAmong_item, IH, !(assoc_L (++)).
    by rewrite (comm (++) (itemDates i)).
  - intros l1 l2 l3 _ IH1 _ IH2. by rewrite IH1.
Qed.

(** X1. When [countFilesRecursively] returns, [oldestFile] is the least and
    [newestFile] the greatest [lastModified] among the files of the whole
    tree whose properties could be fetched; both are null exactly when no
    file's properties could be fetched. *)
Theorem countFilesRecursively_dates
    (d : DirectoryClient) (path : string) (agg : Aggregate)
    (Hret : completion (countFilesRecursively d path) = Returned agg) :
  (oldestFile agg = None ↔ datesIn d = []) ∧
  (newestFile agg = None ↔ datesIn d = []) ∧
  (∀ o, oldestFile agg = Some o → o ∈ datesIn d ∧ ∀ x, x ∈ datesIn d → o ≤ x) ∧
  (∀ n, newestFile agg = Some n → n ∈ datesIn d ∧ ∀ x, x ∈ datesIn d → x ≤ n).
Proof.
  rewrite countFilesRecursively_summary in Hret.
  destruct (firstError d); [done|]. injection Hret as <-. simpl.
  destruct (earliest_least (datesIn d)) as [H1 H2].
  destruct (latest_greatest (datesIn d)) as [H3 H4]. done.
Qed.

Lemma countFilesRecursively_dates_witness :
  completion (countFilesRecursively sampleTree "")
  = Returned {| count := 3; oldestFile := Some 50; newestFile := Some 100 |} ∧
  datesIn sampleTree = [100; 50] ∧
  (∀ o, Some 50 = Some o → o ∈ datesIn sampleTree ∧ ∀ x, x ∈ datesIn sampleTree → o ≤ x).
Proof.
  split; [reflexivity|]. split; [reflexivity|].
  exact (proj1 (proj2 (proj2 (countFilesRecursively_dates sampleTree ""
           {| count := 3; oldestFile := Some 50; newestFile := Some 100 |} eq_refl)))).
Defined.

(** X2. [countFilesRecursively] returns exactly when every listing of the
    tree runs to its end.  Otherwise it throws the error of the first
    listing that fails, in depth-first order; an error of [getProperties]
    is never thrown. *)
Theorem countFilesRecursively_raises (d : DirectoryClient) (path : string) :
  (listable d = true ↔ ∃ agg, completion (countFilesRecursively d path) = Returned agg) ∧
  (∀ e, firstError d = Some e →
        completion (countFilesRecursively d path) = Raised e) ∧
  (∀ e, completion (countFilesRecursively d path) = Raised e →
        firstError d = Some e).
Proof.
  rewrite countFilesRecursively_summary, listable_firstError.
  destruct (firstError d) as [e|]; (split; [|split]).
  - split; [done | intros [agg [=]]].
  - by intros e' [= ->].
  - by intros e' [= ->].
  - split; [by eexists | done].
  - done.
  - done.
Qed.

(** X3. The whole aggregate, dates included, does not depend on the order
    in which listings enumerate their items: a tree and the same tree
    reordered at any depth give the same result. *)
Theorem countFilesRecursively_order_independent
    (d d' : DirectoryClient) (path path' : string)
    (Hlist : listable d = true) (Horder : reordered d d') :
  completion (countFilesRecursively d' path') = completion (countFilesRecursively d path).
Proof.
  destruct Horder as [l l' Horder].
  destruct (Traversal.reorderedItems_same _ _ Horder) as [Hl Hf].
  apply reorderedItems_dates in Horder.
  assert (Hlist' : listable (Dir l') = true) by (cbn [listable] in *; congruence).
  apply listable_firstError in Hlist, Hlist'.
  rewrite !countFilesRecursively_summary, Hlist, Hlist'.
  cbn [filesIn datesIn]. by rewrite Hf, (earliest_perm _ _ Horder), (latest_perm _ _ Horder).
Qed.

Lemma countFilesRecursively_order_independent_witness :
  listable sampleTree = true ∧
  reordered sampleTree sampleTreeReordered ∧
  completion (countFilesRecursively sampleTreeReordered "x")
  = completion (countFilesRecursively sampleTree "").
Proof.
  split; [reflexivity|]. split; [exact Traversal.sampleTree_reordered|].
  exact (countFilesRecursively_order_independent sampleTree sampleTreeReordered "" "x"
           eq_refl Traversal.sampleTree_reordered).
Defined.

Lemma forAwait_calls :
  ∀ items path st,
    listableItems items = true →
    Z.of_nat (length (calls (forAwait items path st)))
    = directoriesAmong items + filesAmong items.
Proof.
  apply (listing_mut
    (fun d => ∀ path,
       listable d = true →
       Z.of_nat (length (calls (countFilesRecursively d path)))
       = directoriesIn d + filesIn d)
    (fun items => ∀ path st,
       listableItems items = true →
       Z.of_nat (length (calls (forAwait items path st)))
       = directoriesAmong items + filesAmong items)
    (fun item => ∀ rest,
       (∀ path st,
          listableItems rest = true →
          Z.of_nat (length (calls (forAwait rest path st)))
          = directoriesAmong rest + filesAmong rest) →
       ∀ path st,
         listableItems (ListItem item rest) = true →
         Z.of_nat (length (calls (forAwait (ListItem item rest) path st)))
         = directoriesAmong (ListItem item rest) + filesAmong (ListItem item rest))).
  - intros items IH path Hl. cbn [countFilesRecursively]. rewrite calls_bind.
    cbn [completion await snd calls fst]. rewrite length_app. cbn [length].
    cbn [listable] in Hl. rewrite Nat2Z.inj_add, (IH path empty Hl).
    cbn [directoriesIn filesIn]. lia.
  - intros path st _. reflexivity.
  - intros e path st [=].
  - intros item IHitem rest IHrest. apply IHitem, IHrest.
  - intros n p rest IHrest path st Hl. cbn [listableItems] in Hl.
    cbn [forAwait]. rewrite calls_bind, completion_try_catch, calls_try_catch.
    rewrite completion_bind, calls_bind, completion_await.
    cbn [directoriesAmong filesAmong].
    destruct p as [lastModified|e]; cbn [completion calls ret await fst snd];
      rewrite ?app_nil_r, length_app, Nat2Z.inj_add, IHrest by done;
      cbn [length]; lia.
  - intros n sub IHsub rest IHrest path st Hl. cbn [listableItems] in Hl.
    apply andb_prop in Hl as [Hsub Hrest].
    cbn [forAwait]. rewrite calls_bind.
    rewrite countFilesRecursively_summary, (proj1 (listable_firstError sub) Hsub).
    rewrite length_app, Nat2Z.inj_add, IHsub, IHrest by done.
    cbn [directoriesAmong filesAmong]. lia.
  - intros n rest IHrest path st Hl. cbn [forAwait directoriesAmong filesAmong].
    by apply IHrest.
Qed.

Lemma paths_length :
  ∀ d path, Z.of_nat (length (directoryPaths d path)) = directoriesIn d.
Proof.
  apply (client_mut
    (fun d => ∀ path, Z.of_nat (length (directoryPaths d path)) = directoriesIn d)
    (fun items => ∀ path, Z.of_nat (length (pathsAmong items path)) = directoriesAmong items)
    (fun item => ∀ rest,
       (∀ path, Z.of_nat (length (pathsAmong rest path)) = directoriesAmong rest) →
       ∀ path, Z.of_nat (length (pathsAmong (ListItem item rest) path))
               = directoriesAmong (ListItem item rest))).
  - intros items IH path. cbn [directoryPaths directoriesIn length].
    rewrite Nat2Z.inj_succ, IH. lia.
  - done.
  - done.
  - intros item IHitem rest IHrest. apply IHitem, IHrest.
  - intros n p rest IHrest path. apply IHrest.
  - intros n sub IHsub rest IHrest path. cbn [pathsAmong directoriesAmong].
    rewrite length_app, Nat2Z.inj_add, IHsub, IHrest. done.
  - intros n rest IHrest path. apply IHrest.
Qed.

Lemma fileNames_length : ∀ d, Z.of_nat (length (fileNames d)) = filesIn d.
Proof.
  apply (client_mut
    (fun d => Z.of_nat (length (fileNames d)) = filesIn d)
    (fun items => Z.of_nat (length (fileNamesAmong items)) = filesAmong items)
    (fun item => ∀ rest,
       Z.of_nat (length (fileNamesAmong rest)) = filesAmong rest →
       Z.of_nat (length (fileNamesAmong (ListItem item rest)))
       = filesAmong (ListItem item rest))).
  - intros items IH. exact IH.
  - done.
  - done.
  - intros item IHitem rest IHrest. apply IHitem, IHrest.
  - intros n p rest IHrest. cbn [fileNamesAmong filesAmong length].
    rewrite Nat2Z.inj_succ, IHrest. lia.
  - intros n sub IHsub rest IHrest. cbn [fileNamesAmong filesAmong].
    rewrite length_app, Nat2Z.inj_add, IHsub, IHrest. done.
  - intros n rest IHrest. exact IHrest.
Qed.

(** The trace of a traversal, by kind of call. *)
Lemma forAwait_trace :
  ∀ items path st,
    listableItems items = true →
    listings (calls (forAwait items path st)) = pathsAmong items path ∧
    fetches (calls (forAwait items path st)) = fileNamesAmong items.
Proof.
  apply (listing_mut
    (fun d => ∀ path,
       listable d = true →
       listings (calls (countFilesRecursively d path)) = directoryPaths d path ∧
       fetches (calls (countFilesRecursively d path)) = fileNames d)
    (fun items => ∀ path st,
       listableItems items = true →
       listings (calls (forAwait items path st)) = pathsAmong items path ∧
       fetches (calls (forAwait items path st)) = fileNamesAmong items)
    (fun item => ∀ rest,
       (∀ path st,
          listableItems rest = true →
          listings (calls (forAwait rest path st)) = pathsAmong rest path ∧
          fetches (calls (forAwait rest path st)) = fileNamesAmong rest) →
       ∀ path st,
         listableItems (ListItem item rest) = true →
         listings (calls (forAwait (ListItem item rest) path st))
         = pathsAmong (ListItem item rest) path ∧
         fetches (calls (forAwait (ListItem item rest) path st))
         = fileNamesAmong (ListItem item rest))).
  - intros items IH path Hl. cbn [countFilesRecursively]. rewrite calls_bind.
    cbn [completion await snd calls fst]. cbn [listable] in Hl.
    destruct (IH path empty Hl) as [IHl IHf]. unfold listings, fetches in *.
    rewrite !omap_app, IHl, IHf. done.
  - intros path st _. done.
  - intros e path st [=].
  - intros item IHitem rest IHrest. apply IHitem, IHrest.
  - intros n p rest IHrest path st Hl. cbn [listableItems] in Hl.
    cbn [forAwait]. rewrite calls_bind, completion_try_catch, calls_try_catch.
    rewrite completion_bind, calls_bind, completion_await.
    cbn [pathsAmong fileNamesAmong]. unfold listings, fetches in *.
    destruct p as [lastModified|e]; cbn [completion calls ret await fst snd];
      rewrite ?app_nil_r, !omap_app;
      edestruct (IHrest path) as [-> ->]; done.
  - intros n sub IHsub rest IHrest path st Hl. cbn [listableItems] in Hl.
    apply andb_prop in Hl as [Hsub Hrest].
    cbn [forAwait]. rewrite calls_bind.
    rewrite countFilesRecursively_summary, (proj1 (listable_firstError sub) Hsub).
    cbn [pathsAmong fileNamesAmong]. unfold listings, fetches in *.
    rewrite !omap_app.
    destruct (IHsub (path +:+ "/" +:+ n) Hsub) as [-> ->].
    edestruct (IHrest path) as [-> ->]; done.
  - intros n rest IHrest path st Hl. cbn [forAwait pathsAmong fileNamesAmong].
    by apply IHrest.
Qed.

(** X4. On a tree whose listings all run to their end, the traversal
    opens the listing of every directory once, the root included, under
    the path made of the names on the way down, and asks for the
    properties of every file once, whether that call succeeds or not; it
    does so depth first, and it awaits nothing else. *)
Theorem countFilesRecursively_calls (d : DirectoryClient) (path : string)
    (Hlist : listable d = true) :
  listings (calls (countFilesRecursively d path)) = directoryPaths d path ∧
  fetches (calls (countFilesRecursively d path)) = fileNames d ∧
  Z.of_nat (length (directoryPaths d path)) = directoriesIn d ∧
  Z.of_nat (length (fileNames d)) = filesIn d ∧
  Z.of_nat (length (calls (countFilesRecursively d path)))
  = directoriesIn d + filesIn d.
Proof.
  split; [|split; [|split; [apply paths_length | split; [apply fileNames_length|]]]].
  - destruct d as [items]. cbn [countFilesRecursively]. rewrite calls_bind.
    cbn [completion await snd calls fst]. cbn [listable] in Hlist.
    destruct (forAwait_trace items path empty Hlist) as [Hl _].
    unfold listings in *. rewrite omap_app, Hl. done.
  - destruct d as [items]. cbn [countFilesRecursively]. rewrite calls_bind.
    cbn [completion await snd calls fst]. cbn [listable] in Hlist.
    destruct (forAwait_trace items path empty Hlist) as [_ Hf].
    unfold fetches in *. rewrite omap_app, Hf. done.
  - destruct d as [items]. cbn [countFilesRecursively]. rewrite calls_bind.
    cbn [completion await snd calls fst]. rewrite length_app. cbn [length].
    cbn [listable] in Hlist. rewrite Nat2Z.inj_add, (forAwait_calls items path empty Hlist).
    cbn [directoriesIn filesIn]. lia.
Qed.

Lemma countFilesRecursively_calls_witness :
  listable sampleTree = true ∧
  calls (countFilesRecursively sampleTree "")
  = [ListFilesAndDirectories ""; GetProperties "a.txt";
     ListFilesAndDirectories "/logs"; GetProperties "x.log";
     ListFilesAndDirectories "/logs/old"; GetProperties "b.txt"] ∧
  listings (calls (countFilesRecursively sampleTree "")) = ["" ; "/logs"; "/logs/old"] ∧
  fetches (calls (countFilesRecursively sampleTree "")) = ["a.txt"; "x.log"; "b.txt"] ∧
  Z.of_nat (length (calls (countFilesRecursively sampleTree ""))) = 3 + 3.
Proof.
  split; [reflexivity|]. split; [reflexivity|].
  destruct (countFilesRecursively_calls sampleTree "" eq_refl)
    as (Hl & Hf & _ & _ & Hn).
  split; [exact Hl|]. split; [exact Hf | exact Hn].
Defined.

End TraversalFacts.

(** ** More on the store probe *)

Module StoreProbeFacts.
Import AzureFileMonitor Tree Store.

Lemma traversal_wellFormed shareClient dir agg :
  traversal shareClient dir = Returned agg → wellFormed agg.
Proof.
  unfold traversal. destruct (getDirectoryClient shareClient dir) as [items].
  rewrite Traversal.completion_countFilesRecursively.
  apply Traversal.forAwait_wellFormed, Traversal.wellFormed_empty.
Qed.

Lemma contribution_nonneg shareClient dir : 0 ≤ contribution shareClient dir.
Proof.
  unfold contribution. destruct (traversal shareClient dir) as [agg|e] eqn:Ht; [|done].
  by destruct (traversal_wellFormed _ _ _ Ht).
Qed.

Lemma sumZ_bounds (f : string → Z) dirs :
  (∀ dir, 0 ≤ f dir) →
  0 ≤ sumZ (f <$> dirs) ∧ ∀ dir, dir ∈ dirs → f dir ≤ sumZ (f <$> dirs).
Proof.
  intros Hf. induction dirs as [|d rest [IH0 IH]].
  - split; [done|]. by intros dir ?%elem_of_nil.
  - change (sumZ (f <$> d :: rest)) with (f d + sumZ (f <$> rest)).
    specialize (Hf d) as Hd. split; [lia|].
    intros dir [->|Hin]%elem_of_cons; [lia|]. specialize (IH dir Hin). lia.
Qed.

(** X5. With an access mode, a share that cannot be reached gives an error
    result with [fileCount] 0 and no breakdown, and nothing is listed.
    When the SDK cannot build the client, from a SAS URL that is no URL
    for example, the probe awaits no network call at all and the message
    is that of the SDK's error.  When the client is built and the share
    does not exist, or the existence check itself fails, the probe has
    awaited that single call. *)
Theorem checkFileStorage_share_unreachable (storage : Storage) (env : World)
    (Haccess : hasAccess storage = true)
    (Hexists : exists_ (share env) ≠ Returned true) :
  ∃ r, checkFileStorage (Some storage) env
       = (match construction (share env) with
          | Returned _ => [ShareExists]
          | Raised _ => []
          end, Returned r) ∧
       r_status r = error ∧
       r_fileCount r = 0 ∧
       r_directoryBreakdown r = None ∧
       r_message r = match exists_ (share env) with
                     | Raised e => Js.message e
                     | Returned _ => "Share does not exist"
                     end.
Proof.
  unfold checkFileStorage.
  rewrite StoreProbe.resolveShareClient_object, Haccess.
  unfold newShareClient, exists_ in *.
  destruct (construction (share env)) as [answer|e] eqn:Hc.
  - rewrite bind_ret. unfold probeShare, exists_. rewrite Hc.
    destruct answer as [[|]|e]; [done| |];
      (eexists; split; [reflexivity|]; done).
  - eexists. split; [reflexivity|]. done.
Qed.

Lemma checkFileStorage_share_unreachable_witness :
  hasAccess listedTarget = true ∧
  exists_ (share missingShare) ≠ Returned true ∧
  (∃ r, checkFileStorage (Some listedTarget) missingShare = ([ShareExists], Returned r) ∧
        r_status r = error ∧
        r_fileCount r = 0 ∧
        r_directoryBreakdown r = None ∧
        r_message r = "Share does not exist") ∧
  hasAccess malformedTarget = true ∧
  exists_ (share refusedUrl) ≠ Returned true ∧
  (∃ r, checkFileStorage (Some malformedTarget) refusedUrl = ([], Returned r) ∧
        r_status r = error ∧
        r_fileCount r = 0 ∧
        r_directoryBreakdown r = None ∧
        r_message r = "Invalid URL").
Proof.
  split; [reflexivity|]. split; [discriminate|]. split.
  - exact (checkFileStorage_share_unreachable listedTarget missingShare
             eq_refl ltac:(discriminate)).
  - split; [reflexivity|]. split; [discriminate|].
    exact (checkFileStorage_share_unreachable malformedTarget refusedUrl
             eq_refl ltac:(discriminate)).
Defined.

(** X6. Every result of the store probe has a non-negative [fileCount];
    an error result has [fileCount] 0 and no breakdown; and every count in
    a breakdown lies between 0 and the total, with its two dates both null
    or both set and in order. *)
Theorem checkFileStorage_result_invariant (storage : Storage) (env : World) :
  ∃ r, completion (checkFileStorage (Some storage) env) = Returned r ∧
       0 ≤ r_fileCount r ∧
       (r_status r = error → r_fileCount r = 0 ∧ r_directoryBreakdown r = None) ∧
       (∀ breakdown dir c o n,
          r_directoryBreakdown r = Some breakdown →
          breakdown !! dir = Some (counted c o n) →
          0 ≤ c ≤ r_fileCount r ∧
          (o = None ↔ n = None) ∧
          (∀ x y, o = Some x → n = Some y → x ≤ y)).
Proof.
  rewrite StoreProbe.checkFileStorage_object. eexists. split; [reflexivity|].
  unfold outcome. destruct (hasAccess storage); [|done].
  destruct (exists_ (share env)) as [[|]|e]; [|done|done].
  unfold counted_result. destruct (explicit (directories storage)).
  - destruct (firstInvalid (share env) _); [done|].
    cbn [resultOf r_fileCount r_status r_directoryBreakdown].
    destruct (sumZ_bounds (contribution (share env)) (default [] (directories storage))
                (contribution_nonneg (share env))) as [Hsum Hle].
    split; [done|]. split; [done|].
    intros breakdown dir c o n [= <-] Hlookup.
    rewrite lookup_own, StoreProbe.foldl_record_lookup in Hlookup.
    destruct (decide (dir ∈ default [] (directories storage) ∧ dir ≠ "__proto__"))
      as [[Hin _]|]; [|done].
    specialize (Hle dir Hin). unfold entryOf, contribution in *.
    destruct (traversal (share env) dir) as [agg|e] eqn:Ht; [|done].
    injection Hlookup as <- <- <-.
    destruct (traversal_wellFormed _ _ _ Ht) as (Hc & Hiff & Hord). done.
  - destruct (traversal (share env) "") as [agg|e] eqn:Ht; [|done].
    destruct (traversal_wellFormed _ _ _ Ht) as (Hc & _). done.
Qed.

Lemma forDirs_calls shareClient dirs fileCount results :
  calls (forDirs shareClient dirs fileCount results) =
  concat ((fun dir => calls (countFilesRecursively (getDirectoryClient shareClient dir) dir))
          <$> reached shareClient dirs).
Proof.
  revert fileCount results.
  induction dirs as [|dir rest IH]; intros fileCount results; [reflexivity|].
  cbn [forDirs reached].
  destruct (invalid shareClient dir) as [e|]; [reflexivity|].
  rewrite bind_ret. cbn [fmap list_fmap concat].
  rewrite calls_bind, completion_try_catch, calls_try_catch, completion_bind, calls_bind.
  destruct (countFilesRecursively (getDirectoryClient shareClient dir) dir) as [t [agg|e]];
    cbn [completion calls ret fst snd]; rewrite !app_nil_r, IH; reflexivity.
Qed.

Lemma reached_all shareClient dirs :
  firstInvalid shareClient dirs = None → reached shareClient dirs = dirs.
Proof.
  induction dirs as [|d rest IH]; [done|]. cbn [firstInvalid reached].
  destruct (invalid shareClient d); [done|]. intros Hrest. by rewrite IH.
Qed.

(** X7. With an explicit [directories] list the probe checks the share and
    then traverses the listed directories one after the other, in the
    order of the list; the traversal of a directory that fails is followed
    by the traversal of the next one.  It stops at the first name for
    which no client can be built: the directories before it have been
    traversed, those after it never are.  When a client can be built for
    every name, every listed directory is traversed. *)
Theorem checkFileStorage_directories_calls
    (storage : Storage) (env : World) (dirs : list string)
    (Haccess : hasAccess storage = true)
    (Hexists : exists_ (share env) = Returned true)
    (Hdirs : directories storage = Some dirs)
    (Hne : dirs ≠ []) :
  calls (checkFileStorage (Some storage) env) =
  ShareExists
  :: concat ((fun dir =>
                calls (countFilesRecursively (getDirectoryClient (share env) dir) dir))
             <$> reached (share env) dirs) ∧
  ((∀ dir, dir ∈ dirs → invalid (share env) dir = None) →
   reached (share env) dirs = dirs).
Proof.
  split; [|by intros Hvalid; apply reached_all, StoreProbe.firstInvalid_none].
  destruct (StoreProbe.newShareClient_answer env _ (StoreProbe.exists_answer env _ Hexists))
    as [Hnew _].
  unfold checkFileStorage.
  rewrite StoreProbe.resolveShareClient_object, Haccess, Hnew, bind_ret.
  unfold probeShare, countFiles. cbn [prop]. rewrite Hexists, !bind_ret, Hdirs.
  destruct dirs as [|d rest]; [done|]. cbn [explicit default from_option id].
  pose proof (StoreProbe.forDirs_completion (share env) (d :: rest) 0 Js.emptyDict) as Hc.
  pose proof (forDirs_calls (share env) (d :: rest) 0 Js.emptyDict) as Ht.
  rewrite <-Ht. clear Ht.
  destruct (forDirs (share env) (d :: rest) 0 Js.emptyDict) as [t c].
  cbn [completion snd] in Hc. subst c.
  destruct (firstInvalid (share env) (d :: rest)); simpl; by rewrite ?app_nil_r.
Qed.

Lemma checkFileStorage_directories_calls_witness :
  hasAccess twoListed = true ∧
  exists_ (share sampleWorld) = Returned true ∧
  directories twoListed = Some ["a"; "b"] ∧
  calls (checkFileStorage (Some twoListed) sampleWorld) =
  [ShareExists; ListFilesAndDirectories "a"; GetProperties "one"; GetProperties "two";
   ListFilesAndDirectories "b"] ∧
  hasAccess escapingTarget = true ∧
  directories escapingTarget = Some ["a"; ".."; "c"] ∧
  calls (checkFileStorage (Some escapingTarget) sampleWorld) =
  [ShareExists; ListFilesAndDirectories "a"; GetProperties "one"; GetProperties "two"].
Proof.
  split; [reflexivity|]. split; [reflexivity|]. split; [reflexivity|]. split.
  - exact (proj1 (checkFileStorage_directories_calls twoListed sampleWorld ["a"; "b"]
                    eq_refl eq_refl eq_refl ltac:(discriminate))).
  - split; [reflexivity|]. split; [reflexivity|].
    exact (proj1 (checkFileStorage_directories_calls escapingTarget sampleWorld
                    ["a"; ".."; "c"] eq_refl eq_refl eq_refl ltac:(discriminate))).
Defined.

End StoreProbeFacts.

(** ** More on [checkAll] *)

Module CycleFacts.

(** X8. Whatever the configured target objects, both [checkAll] fulfil.
    Under every key other than [__proto__] the dictionary holds the result
    of the probe that completed last among the targets with that key, and
    nothing when no target has that key: when two targets share a key, the
    one probed last wins.  A target whose key is [__proto__] gets no entry
    at all: the result of the last such target becomes the prototype of
    the dictionary. *)
Theorem checkAll_last_completed_wins
    (websitesDone : list (WebsiteMonitor.Website * WebsiteMonitor.World))
    (storagesDone : list (AzureFileMonitor.Storage * AzureFileMonitor.World)) :
  ∃ websiteResults azureFileResults,
    WebsiteMonitor.checkAll (object <$> websitesDone) = Returned websiteResults ∧
    AzureFileMonitor.checkAll (object <$> storagesDone) = Returned azureFileResults ∧
    (∀ k, k ≠ "__proto__" →
       match last (filter (fun t => WebsiteMonitor.url t.1 = k) websitesDone) with
       | Some t =>
           ∃ r, completion (WebsiteMonitor.checkWebsite (Some t.1) t.2) = Returned r ∧
                Js.own websiteResults !! k = Some r
       | None => Js.own websiteResults !! k = None
       end) ∧
    (∀ k, k ≠ "__proto__" →
       match last (filter (fun t => AzureFileMonitor.key t.1 = k) storagesDone) with
       | Some t =>
           ∃ r, completion (AzureFileMonitor.checkFileStorage (Some t.1) t.2) = Returned r ∧
                Js.own azureFileResults !! k = Some r
       | None => Js.own azureFileResults !! k = None
       end) ∧
    Js.own websiteResults !! "__proto__" = None ∧
    Js.own azureFileResults !! "__proto__" = None ∧
    match last (filter (fun t => WebsiteMonitor.url t.1 = "__proto__") websitesDone) with
    | Some t =>
        ∃ r, completion (WebsiteMonitor.checkWebsite (Some t.1) t.2) = Returned r ∧
             Js.proto websiteResults = Some r
    | None => Js.proto websiteResults = None
    end ∧
    match last (filter (fun t => AzureFileMonitor.key t.1 = "__proto__") storagesDone) with
    | Some t =>
        ∃ r, completion (AzureFileMonitor.checkFileStorage (Some t.1) t.2) = Returned r ∧
             Js.proto azureFileResults = Some r
    | None => Js.proto azureFileResults = None
    end.
Proof.
  destruct (settle_last WebsiteMonitor.url Endpoint.outcome
              WebsiteMonitor.task WebsiteMonitor.settle
              (fun _ => eq_refl) (fun _ _ _ => eq_refl) Cycle.website_task_object
              websitesDone) as (websiteResults & Hw & Hwl & Hwk & Hwp).
  destruct (settle_last AzureFileMonitor.key Store.outcome
              AzureFileMonitor.task AzureFileMonitor.settle
              (fun _ => eq_refl) (fun _ _ _ => eq_refl) Cycle.storage_task_object
              storagesDone) as (azureFileResults & Hs & Hsl & Hsk & Hsp).
  exists websiteResults, azureFileResults. split; [done|]. split; [done|].
  split; [|split; [|split; [done|split; [done|split]]]].
  - intros k Hk. rewrite (Hwl k Hk). clear Hwp.
    destruct (last (filter _ websitesDone)) as [t|]; [|done].
    eexists. split; [apply EndpointProbe.checkWebsite_object | done].
  - intros k Hk. rewrite (Hsl k Hk). clear Hsp.
    destruct (last (filter _ storagesDone)) as [t|]; [|done].
    eexists. split; [apply StoreProbe.checkFileStorage_object | done].
  - rewrite Hwp. destruct (last (filter _ websitesDone)) as [t|]; [|done].
    eexists. split; [apply EndpointProbe.checkWebsite_object | done].
  - rewrite Hsp. destruct (last (filter _ storagesDone)) as [t|]; [|done].
    eexists. split; [apply StoreProbe.checkFileStorage_object | done].
Qed.

(** A website whose URL is [__proto__], probed alone: the dictionary of
    [checkAll] is empty. *)
Example checkAll_proto_url :
  ∃ r, completion (WebsiteMonitor.checkWebsite (Some Samples.protoWebsite) Endpoint.okWorld)
       = Returned r ∧
       WebsiteMonitor.checkAll [(Some Samples.protoWebsite, Endpoint.okWorld)]
       = Returned {| Js.own := ∅; Js.proto := Some r |}.
Proof. eexists. split; reflexivity. Qed.

(** X9. When the keys of the configured target objects are pairwise
    distinct, the dictionaries of both [checkAll] do not depend on the
    order in which the probes complete. *)
Theorem checkAll_order_independent
    (websites done1 done2 : list (WebsiteMonitor.Website * WebsiteMonitor.World))
    (storages sdone1 sdone2 : list (AzureFileMonitor.Storage * AzureFileMonitor.World))
    (Hw1 : done1 ≡ₚ websites) (Hw2 : done2 ≡ₚ websites)
    (Hs1 : sdone1 ≡ₚ storages) (Hs2 : sdone2 ≡ₚ storages)
    (Hurls : NoDup (WebsiteMonitor.url ∘ fst <$> websites))
    (Hkeys : NoDup (AzureFileMonitor.key ∘ fst <$> storages)) :
  WebsiteMonitor.checkAll (object <$> done1) = WebsiteMonitor.checkAll (object <$> done2) ∧
  AzureFileMonitor.checkAll (object <$> sdone1) = AzureFileMonitor.checkAll (object <$> sdone2).
Proof.
  split.
  - exact (settle_order WebsiteMonitor.url Endpoint.outcome
             WebsiteMonitor.task WebsiteMonitor.settle
             (fun _ => eq_refl) (fun _ _ _ => eq_refl) Cycle.website_task_object
             websites done1 done2 Hw1 Hw2 Hurls).
  - exact (settle_order AzureFileMonitor.key Store.outcome
             AzureFileMonitor.task AzureFileMonitor.settle
             (fun _ => eq_refl) (fun _ _ _ => eq_refl) Cycle.storage_task_object
             storages sdone1 sdone2 Hs1 Hs2 Hkeys).
Qed.

Lemma checkAll_order_independent_witness :
  reverse Samples.sampleWebsites ≡ₚ Samples.sampleWebsites ∧
  reverse Samples.sampleStorages ≡ₚ Samples.sampleStorages ∧
  WebsiteMonitor.checkAll (object <$> reverse Samples.sampleWebsites)
  = WebsiteMonitor.checkAll (object <$> Samples.sampleWebsites) ∧
  AzureFileMonitor.checkAll (object <$> reverse Samples.sampleStorages)
  = AzureFileMonitor.checkAll (object <$> Samples.sampleStorages).
Proof.
  assert (Hw : reverse Samples.sampleWebsites ≡ₚ Samples.sampleWebsites) by apply perm_swap.
  assert (Hs : reverse Samples.sampleStorages ≡ₚ Samples.sampleStorages) by apply perm_swap.
  split; [exact Hw|]. split; [exact Hs|].
  exact (checkAll_order_independent _ _ _ _ _ _ Hw (reflexivity _) Hs (reflexivity _)
           ltac:(apply (bool_decide_unpack _); vm_compute; exact I)
           ltac:(apply (bool_decide_unpack _); vm_compute; exact I)).
Defined.

End CycleFacts.

(** ** The routes of the server *)

Module AppFacts.
Import App Deployed.

Lemma split_spaceless s : spaceless s = true → split space s = [s].
Proof.
  induction s as [|a rest IH]; [done|]. cbn [spaceless split].
  intros [Ha Hrest]%andb_prop. apply negb_true_iff in Ha. rewrite Ha, IH by done.
  reflexivity.
Qed.

Lemma append_cons a s t : String a s +:+ t = String a (s +:+ t).
Proof. reflexivity. Qed.

Lemma split_append s t :
  spaceless s = true → split space (s +:+ String space t) = s :: split space t.
Proof.
  induction s as [|a rest IH].
  - intros _. change ("" +:+ String space t) with (String space t).
    cbn [split]. by rewrite Ascii.eqb_refl.
  - cbn [spaceless]. rewrite append_cons. cbn [split].
    intros [Ha Hrest]%andb_prop. apply negb_true_iff in Ha. rewrite Ha, IH by done.
    reflexivity.
Qed.

Lemma truthy_nonempty s : Js.truthy (Some s) = true ↔ s ≠ "".
Proof.
  unfold Js.truthy. rewrite negb_true_iff. split.
  - intros H ->. discriminate.
  - intros H. by apply String.eqb_neq.
Qed.

(** The token [authenticateToken] takes from a header. *)
Lemma authenticateToken_header jwt env scheme token :
  spaceless scheme = true → spaceless token = true →
  authenticateToken jwt env (Some (scheme +:+ String space token)) =
  if String.eqb token "" then inl (status 401 (errorBody "Access token required"))
  else
    match verify jwt token (JWT_SECRET env) with
    | None => inl (status 403 (errorBody "Invalid or expired token"))
    | Some user => inr user
    end.
Proof.
  intros Hs Ht. unfold authenticateToken.
  assert (Htruthy : Js.truthy (Some (scheme +:+ String space token)) = true).
  { apply truthy_nonempty. by destruct scheme. }
  rewrite Htruthy. cbn [Js.template].
  rewrite split_append, split_spaceless by done. cbn [lookup list_lookup].
  unfold Js.truthy. rewrite negb_involutive. reflexivity.
Qed.

Lemma authenticateToken_no_token jwt env authHeader :
  Js.truthy authHeader = false ∨
  (∃ h, authHeader = Some h ∧ spaceless h = true) →
  authenticateToken jwt env authHeader
  = inl (status 401 (errorBody "Access token required")).
Proof.
  unfold authenticateToken. intros [Hfalsy|(h & -> & Hh)].
  - by rewrite !Hfalsy.
  - destruct (Js.truthy (Some h)) eqn:Htruthy; [|by rewrite Htruthy].
    cbn [Js.template]. rewrite split_spaceless by done. reflexivity.
Qed.

(** X10. Every route but [/login] answers only to a request that carries
    a token: a request with no [Authorization] header, or with a header
    that has no space in it, gets 401 and changes nothing; with a header
    [<scheme> <token>] it gets 401 for an empty token, 403 when [verify]
    rejects the token, and is handled otherwise.  The scheme word is not
    looked at. *)
Theorem serve_requires_token
    (jwt : Jwt) (env : ProcessEnv) (disk : Completion unit) (st : State) (req : Request)
    (Hroute : ∀ username password, route req ≠ PostLogin username password) :
  (Js.truthy (authorization req) = false ∨
   (∃ h, authorization req = Some h ∧ spaceless h = true) →
   serve jwt env disk st req = (st, status 401 (errorBody "Access token required"))) ∧
  (∀ scheme token,
     authorization req = Some (scheme +:+ " " +:+ token) →
     spaceless scheme = true → spaceless token = true →
     serve jwt env disk st req =
     if String.eqb token "" then (st, status 401 (errorBody "Access token required"))
     else
       match verify jwt token (JWT_SECRET env) with
       | None => (st, status 403 (errorBody "Invalid or expired token"))
       | Some user => handle jwt env disk st user (route req)
       end).
Proof.
  assert (Hserve : serve jwt env disk st req =
            match authenticateToken jwt env (authorization req) with
            | inl reply => (st, reply)
            | inr user => handle jwt env disk st user (route req)
            end).
  { unfold serve. destruct (route req) eqn:Hr; try reflexivity. by destruct (Hroute username password). }
  rewrite Hserve. split.
  - intros Hno. by rewrite authenticateToken_no_token.
  - intros scheme token -> Hs Ht.
    change (scheme +:+ " " +:+ token) with (scheme +:+ String space token).
    rewrite authenticateToken_header by done.
    destruct (String.eqb token ""); [done|].
    by destruct (verify jwt token (JWT_SECRET env)).
Qed.

Lemma serve_requires_token_witness :
  (∀ username password, GetValidateToken ≠ PostLogin username password) ∧
  serve oneToken noVariables (Returned tt) (start loadedConfig)
    {| authorization := Some "Bearer t0k3n"; route := GetValidateToken |}
  = (start loadedConfig, json (validBody "admin")) ∧
  serve oneToken noVariables (Returned tt) (start loadedConfig)
    {| authorization := Some "Bearer wrong"; route := DeleteConfigWebsite (Some 0) |}
  = (start loadedConfig, status 403 (errorBody "Invalid or expired token")).
Proof.
  split; [discriminate|]. split.
  - exact (proj2 (serve_requires_token oneToken noVariables (Returned tt) (start loadedConfig)
             {| authorization := Some "Bearer t0k3n"; route := GetValidateToken |}
             ltac:(discriminate)) "Bearer" "t0k3n" eq_refl eq_refl eq_refl).
  - exact (proj2 (serve_requires_token oneToken noVariables (Returned tt) (start loadedConfig)
             {| authorization := Some "Bearer wrong"; route := DeleteConfigWebsite (Some 0) |}
             ltac:(discriminate)) "Bearer" "wrong" eq_refl eq_refl eq_refl).
Defined.

Lemma admin_nonempty env : ADMIN_USERNAME env ≠ "" ∧ ADMIN_PASSWORD env ≠ "".
Proof.
  unfold ADMIN_USERNAME, ADMIN_PASSWORD, Js.or_else. split.
  - destruct (Js.truthy (env_ADMIN_USERNAME env)) eqn:H; [|done].
    destruct (env_ADMIN_USERNAME env) as [u|]; [|done]. by apply truthy_nonempty.
  - destruct (Js.truthy (env_ADMIN_PASSWORD env)) eqn:H; [|done].
    destruct (env_ADMIN_PASSWORD env) as [u|]; [|done]. by apply truthy_nonempty.
Qed.

(** X11. [/login] issues a token exactly when the user name and the
    password of the request are the administrator's, which are never
    empty: the variables of the environment when they are set and not
    empty, [admin] and [admin123] otherwise.  The token is signed for that
    user name. *)
Theorem login_only_admin (jwt : Jwt) (env : ProcessEnv) (username password : option string) :
  (statusCode (login jwt env username password) = 200 ↔
   username = Some (ADMIN_USERNAME env) ∧ password = Some (ADMIN_PASSWORD env)) ∧
  (statusCode (login jwt env username password) = 200 →
   body (login jwt env username password)
   = loginBody "Login successful"
       (sign jwt (ADMIN_USERNAME env) (JWT_SECRET env)) "24h") ∧
  ADMIN_USERNAME env ≠ "" ∧ ADMIN_PASSWORD env ≠ "" ∧
  (env_ADMIN_USERNAME env = None → ADMIN_USERNAME env = "admin") ∧
  (env_ADMIN_PASSWORD env = None → ADMIN_PASSWORD env = "admin123").
Proof.
  destruct (admin_nonempty env) as [Hu Hp].
  split; [|split; [|split; [done|split; [done|split]]]].
  - unfold login. split.
    + destruct (Js.truthy username) eqn:Htu; [|done].
      destruct (Js.truthy password) eqn:Htp; [|done]. cbn [negb orb].
      destruct (String.eqb _ (ADMIN_USERNAME env)) eqn:Heu; [|done].
      destruct (String.eqb _ (ADMIN_PASSWORD env)) eqn:Hep; [|done].
      apply String.eqb_eq in Heu, Hep. intros _.
      destruct username as [u|]; [|done]. destruct password as [p|]; [|done].
      simpl in *. by subst.
    + intros [-> ->].
      rewrite (proj2 (truthy_nonempty _) Hu), (proj2 (truthy_nonempty _) Hp).
      cbn [negb orb Js.template]. by rewrite !String.eqb_refl.
  - unfold login.
    destruct (Js.truthy username) eqn:Htu; [|done].
    destruct (Js.truthy password) eqn:Htp; [|done]. cbn [negb orb].
    destruct (String.eqb _ (ADMIN_USERNAME env)) eqn:Heu; [|done].
    destruct (String.eqb _ (ADMIN_PASSWORD env)) eqn:Hep; [|done].
    apply String.eqb_eq in Heu. intros _. cbn [andb json body]. by rewrite Heu.
  - unfold ADMIN_USERNAME. by intros ->.
  - unfold ADMIN_PASSWORD. by intros ->.
Qed.

(** X12. Provided the token library verifies the token it signed for the
    administrator, and that token is not empty and has no space, the
    token of a successful login, sent as [Bearer <token>], passes
    [authenticateToken]: [/validate-token] answers with the
    administrator's name. *)
Theorem login_token_validates
    (jwt : Jwt) (env : ProcessEnv) (disk : Completion unit) (st : State)
    (Hverify : verify jwt (sign jwt (ADMIN_USERNAME env) (JWT_SECRET env)) (JWT_SECRET env)
               = Some (ADMIN_USERNAME env))
    (Hshape : spaceless (sign jwt (ADMIN_USERNAME env) (JWT_SECRET env)) = true ∧
              sign jwt (ADMIN_USERNAME env) (JWT_SECRET env) ≠ "") :
  ∃ token,
    login jwt env (Some (ADMIN_USERNAME env)) (Some (ADMIN_PASSWORD env))
    = json (loginBody "Login successful" token "24h") ∧
    serve jwt env disk st
      {| authorization := Some ("Bearer " +:+ token); route := GetValidateToken |}
    = (st, json (validBody (ADMIN_USERNAME env))).
Proof.
  destruct Hshape as [Hspace Hne]. destruct (admin_nonempty env) as [Hu Hp].
  exists (sign jwt (ADMIN_USERNAME env) (JWT_SECRET env)). split.
  - unfold login.
    rewrite (proj2 (truthy_nonempty _) Hu), (proj2 (truthy_nonempty _) Hp).
    cbn [negb orb Js.template]. by rewrite !String.eqb_refl.
  - unfold serve. cbn [route authorization].
    change ("Bearer " +:+ ?t) with ("Bearer" +:+ String space t).
    rewrite authenticateToken_header by done.
    apply String.eqb_neq in Hne. by rewrite Hne, Hverify.
Qed.

Lemma login_token_validates_witness :
  verify oneToken (sign oneToken (ADMIN_USERNAME noVariables) (JWT_SECRET noVariables))
    (JWT_SECRET noVariables) = Some (ADMIN_USERNAME noVariables) ∧
  ∃ token,
    login oneToken noVariables (Some (ADMIN_USERNAME noVariables))
      (Some (ADMIN_PASSWORD noVariables))
    = json (loginBody "Login successful" token "24h") ∧
    serve oneToken noVariables (Returned tt) (start loadedConfig)
      {| authorization := Some ("Bearer " +:+ token); route := GetValidateToken |}
    = (start loadedConfig, json (validBody (ADMIN_USERNAME noVariables))).
Proof.
  split; [reflexivity|].
  apply (login_token_validates oneToken noVariables (Returned tt) (start loadedConfig)).
  - reflexivity.
  - split; [reflexivity | discriminate].
Defined.

Lemma monitored_restart st :
  monitoredWebsites (restartMonitoring st) = default [] (websites (config st)) ∧
  monitoredStorages (restartMonitoring st) = default [] (azureFileStorages (config st)).
Proof.
  unfold monitoredWebsites, monitoredStorages, restartMonitoring. cbn.
  by destruct (websites (config st)), (azureFileStorages (config st)).
Qed.

Lemma persist_synced st reply : synced (persist (Returned tt) st reply).1.
Proof. done. Qed.

(** X13. A request to add a website with a name and a URL, whose write
    succeeds, appends the website to the configured list; the restarted
    monitor watches that list and [config.json] holds the new
    configuration.  Every later [checkAll] of the monitor that fulfils has
    an entry under the new URL, unless that URL is [__proto__], which the
    request accepts like any other: then the dictionary has no such entry
    and has a result as its prototype. *)
Theorem postWebsite_monitored
    (st : State) (name url : option string)
    (Hname : Js.truthy name = true) (Hurl : Js.truthy url = true) :
  let added := {| WebsiteMonitor.url := Js.template url; WebsiteMonitor.name := name |} in
  ∃ st',
    postWebsite (Returned tt) st name url
    = (st', json (websiteAdded "Website added successfully" added)) ∧
    websites (config st') = Some (default [] (websites (config st)) ++ [Some added]) ∧
    azureFileStorages (config st') = azureFileStorages (config st) ∧
    monitoredWebsites st' = default [] (websites (config st)) ++ [Some added] ∧
    configFile st' = config st' ∧
    ∀ tasks results,
      tasks.*1 ≡ₚ monitoredWebsites st' →
      WebsiteMonitor.checkAll tasks = Returned results →
      (Js.template url ≠ "__proto__" → is_Some (Js.own results !! Js.template url)) ∧
      (Js.template url = "__proto__" →
       Js.own results !! "__proto__" = None ∧ is_Some (Js.proto results)).
Proof.
  intros added. unfold postWebsite. rewrite Hname, Hurl. cbn [negb orb].
  eexists. split; [reflexivity|]. split; [reflexivity|]. split; [reflexivity|].
  split; [apply monitored_restart|]. split; [reflexivity|].
  intros tasks results Hperm Hall.
  rewrite (proj1 (monitored_restart _)) in Hperm. cbn [config websites default] in Hperm.
  assert (Hin : Some added ∈ tasks.*1).
  { rewrite Hperm. apply elem_of_app. right. by left. }
  apply list_elem_of_fmap_1 in Hin as ([w env] & Hw & Hin). cbn [fst] in Hw. subst w.
  destruct (settle_has_entry WebsiteMonitor.url Endpoint.outcome
              WebsiteMonitor.task WebsiteMonitor.settle
              (fun _ => eq_refl) (fun _ _ _ => eq_refl) Cycle.website_task_object
              tasks Js.emptyDict results added env Hin Hall)
    as (Hentry & Hproto & Hnone).
  split; [exact Hentry|]. intros Heq. split; [exact Hnone | by apply Hproto].
Qed.

Lemma postWebsite_monitored_witness :
  Js.truthy (Some "Down") = true ∧
  Js.truthy (Some "https://down.example") = true ∧
  ∃ st',
    postWebsite (Returned tt) (start loadedConfig) (Some "Down") (Some "https://down.example")
    = (st', json (websiteAdded "Website added successfully" Samples.refusing)) ∧
    monitoredWebsites st' = [Some Endpoint.okExample; Some Samples.refusing] ∧
    ∃ st'' results,
      postWebsite (Returned tt) (start loadedConfig) (Some "Proto") (Some "__proto__")
      = (st'', json (websiteAdded "Website added successfully" Samples.protoWebsite)) ∧
      monitoredWebsites st'' = [Some Endpoint.okExample; Some Samples.protoWebsite] ∧
      WebsiteMonitor.checkAll
        [(Some Endpoint.okExample, Endpoint.okWorld);
         (Some Samples.protoWebsite, Endpoint.okWorld)]
      = Returned results ∧
      Js.own results !! "__proto__" = None ∧
      is_Some (Js.proto results).
Proof.
  split; [reflexivity|]. split; [reflexivity|].
  destruct (postWebsite_monitored (start loadedConfig) (Some "Down")
              (Some "https://down.example") eq_refl eq_refl)
    as (st' & Hpost & _ & _ & Hmon & _).
  exists st'. split; [exact Hpost|]. split; [exact Hmon|].
  destruct (postWebsite_monitored (start loadedConfig) (Some "Proto")
              (Some "__proto__") eq_refl eq_refl)
    as (st'' & Hpost' & _ & _ & Hmon' & _ & Hall).
  assert (Hperm : [(Some Endpoint.okExample, Endpoint.okWorld);
                   (Some Samples.protoWebsite, Endpoint.okWorld)].*1
                  ≡ₚ monitoredWebsites st'') by (by rewrite Hmon').
  eexists st'', _. split; [exact Hpost'|]. split; [exact Hmon'|].
  split; [reflexivity|].
  exact (proj2 (Hall _ _ Hperm eq_refl) eq_refl).
Defined.

(** X14. A request to delete the website at an index within the list,
    whose write succeeds, removes exactly that element: the elements
    before it keep their place, those after it move down by one, the
    removed element is sent back, and the restarted monitor watches the
    shortened list. *)
Theorem deleteWebsite_removes
    (st : State) (l : list (option WebsiteMonitor.Website)) (i : Z)
    (Hlist : websites (config st) = Some l)
    (Hindex : 0 ≤ i < Z.of_nat (length l)) :
  ∃ st' l',
    deleteWebsite (Returned tt) st (Some i)
    = (st', json (websiteRemoved "Website removed successfully" (l !! Z.to_nat i))) ∧
    is_Some (l !! Z.to_nat i) ∧
    websites (config st') = Some l' ∧
    monitoredWebsites st' = l' ∧
    configFile st' = config st' ∧
    length l = S (length l') ∧
    (∀ j, (j < Z.to_nat i)%nat → l' !! j = l !! j) ∧
    (∀ j, (Z.to_nat i ≤ j)%nat → l' !! j = l !! S j).
Proof.
  unfold deleteWebsite, negative, beyond. rewrite Hlist.
  destruct (Z.ltb_spec i 0) as [?|_]; [lia|].
  rewrite Z.geb_leb. destruct (Z.leb_spec (Z.of_nat (length l)) i) as [?|_]; [lia|].
  cbn [spliceStart].
  assert (Hlt : (Z.to_nat i < length l)%nat) by lia.
  exists (restartMonitoring
            {| config := {| websites := Some (delete (Z.to_nat i) l);
                            azureFileStorages := azureFileStorages (config st) |};
               websiteMonitor := websiteMonitor st;
               azureFileMonitor := azureFileMonitor st;
               configFile := {| websites := Some (delete (Z.to_nat i) l);
                                azureFileStorages := azureFileStorages (config st) |} |}),
    (delete (Z.to_nat i) l).
  split; [reflexivity|]. split; [by apply lookup_lt_is_Some|].
  split; [reflexivity|]. split; [apply monitored_restart|]. split; [reflexivity|].
  split; [rewrite length_delete by (by apply lookup_lt_is_Some); lia|].
  split.
  - intros j Hj. by apply list_lookup_delete_lt.
  - intros j Hj. by apply list_lookup_delete_ge.
Qed.

Lemma deleteWebsite_removes_witness :
  websites (config (start loadedConfig)) = Some [Some Endpoint.okExample] ∧
  ∃ st' l',
    deleteWebsite (Returned tt) (start loadedConfig) (Some 0)
    = (st', json (websiteRemoved "Website removed successfully"
                    (Some (Some Endpoint.okExample)))) ∧
    websites (config st') = Some l' ∧
    length [Some Endpoint.okExample] = S (length l').
Proof.
  split; [reflexivity|].
  destruct (deleteWebsite_removes (start loadedConfig) [Some Endpoint.okExample] 0
              eq_refl ltac:(split; [reflexivity | reflexivity]))
    as (st' & l' & Hdel & _ & Hl' & _ & _ & Hlen & _).
  exists st', l'. split; [exact Hdel|]. split; [exact Hl' | exact Hlen].
Defined.

(** X15. Adding a website and then deleting the index it was given, the
    length of the list before, gives back the list as it was; a list that
    was absent is then the empty list.  The deletion sends back the
    website that was added. *)
Theorem post_then_delete_website
    (st : State) (name url : option string)
    (Hname : Js.truthy name = true) (Hurl : Js.truthy url = true) :
  let before := default [] (websites (config st)) in
  let added := {| WebsiteMonitor.url := Js.template url; WebsiteMonitor.name := name |} in
  ∃ st' reply,
    deleteWebsite (Returned tt) (postWebsite (Returned tt) st name url).1
      (Some (Z.of_nat (length before)))
    = (st', reply) ∧
    reply = json (websiteRemoved "Website removed successfully" (Some (Some added))) ∧
    websites (config st') = Some before ∧
    monitoredWebsites st' = before ∧
    azureFileStorages (config st') = azureFileStorages (config st).
Proof.
  intros before added. subst before added.
  unfold postWebsite. rewrite Hname, Hurl. cbn [negb orb persist fst].
  unfold deleteWebsite, negative, beyond.
  cbn [config websites restartMonitoring azureFileStorages].
  assert (Hbeyond : ∀ (l : list (option WebsiteMonitor.Website)) x,
            (Z.of_nat (length l) >=? Z.of_nat (length (l ++ [x]))) = false).
  { intros l x. rewrite Z.geb_leb, length_app. cbn [length]. apply Z.leb_gt. lia. }
  rewrite (proj2 (Z.ltb_ge _ _)) by lia.
  eexists _, _. split.
  { rewrite Hbeyond. cbn [spliceStart]. rewrite Nat2Z.id.
    rewrite list_lookup_middle by done. reflexivity. }
  split; [reflexivity|].
  cbn [persist fst config websites restartMonitoring azureFileStorages].
  rewrite (delete_middle _ []), app_nil_r.
  split; [reflexivity|]. split; [|reflexivity].
  unfold monitoredWebsites. reflexivity.
Qed.

Lemma post_then_delete_website_witness :
  Js.truthy (Some "Down") = true ∧
  Js.truthy (Some "https://down.example") = true ∧
  ∃ st' reply,
    deleteWebsite (Returned tt)
      (postWebsite (Returned tt) (start loadedConfig) (Some "Down")
         (Some "https://down.example")).1
      (Some 1)
    = (st', reply) ∧
    websites (config st') = Some [Some Endpoint.okExample].
Proof.
  split; [reflexivity|]. split; [reflexivity|].
  destruct (post_then_delete_website (start loadedConfig) (Some "Down")
              (Some "https://down.example") eq_refl eq_refl)
    as (st' & reply & Hdel & _ & Hl & _).
  exists st', reply. split; [exact Hdel | exact Hl].
Defined.

(** X16. What the deletion of a website does at the edges.  A negative
    index, or one at or beyond the length of the list, gets 404 and
    changes nothing.  An index that [parseInt] could not read, [NaN],
    passes both tests and the first website of the list is removed.  When
    [config] has no list of websites, an index that is not negative gets
    500 and changes nothing. *)
Theorem deleteWebsite_edges (disk : Completion unit) (st : State) :
  (∀ i, i < 0 →
        deleteWebsite disk st (Some i) = (st, status 404 (errorBody "Website not found"))) ∧
  (∀ i l, websites (config st) = Some l → Z.of_nat (length l) ≤ i →
          deleteWebsite disk st (Some i)
          = (st, status 404 (errorBody "Website not found"))) ∧
  (∀ first rest,
     websites (config st) = Some (first :: rest) →
     ∃ st',
       deleteWebsite (Returned tt) st None
       = (st', json (websiteRemoved "Website removed successfully" (Some first))) ∧
       websites (config st') = Some rest ∧
       monitoredWebsites st' = rest) ∧
  (∀ index, websites (config st) = None → negative index = false →
            ∃ e, deleteWebsite disk st index = (st, status 500 (failure e))).
Proof.
  unfold deleteWebsite, negative, beyond. repeat split.
  - intros i Hi. by destruct (Z.ltb_spec i 0); [|lia].
  - intros i l -> Hi. destruct (Z.ltb_spec i 0); [done|].
    rewrite Z.geb_leb. by destruct (Z.leb_spec (Z.of_nat (length l)) i); [|lia].
  - intros first rest ->. eexists. split; [reflexivity|]. split; [reflexivity|].
    apply monitored_restart.
  - intros index -> Hneg. unfold negative in Hneg. rewrite Hneg. by eexists.
Qed.

(** X17. When the write of [config.json] fails, the request to add a
    website gets 500, yet the website is in [config]; the file is as it
    was and the monitors are not restarted.  From a state in which the
    monitors watch the arrays of [config], the monitor sees the new
    website when [config] had a list, through the array they share, and
    watches nothing when it had none. *)
Theorem postWebsite_write_fails
    (st : State) (name url : option string) (e : Js.Error)
    (Hname : Js.truthy name = true) (Hurl : Js.truthy url = true)
    (Hsynced : synced st) :
  let added := {| WebsiteMonitor.url := Js.template url; WebsiteMonitor.name := name |} in
  ∃ st',
    postWebsite (Raised e) st name url = (st', status 500 (failure e)) ∧
    websites (config st') = Some (default [] (websites (config st)) ++ [Some added]) ∧
    configFile st' = configFile st ∧
    configFile st' ≠ config st' ∧
    websiteMonitor st' = websiteMonitor st ∧
    monitoredWebsites st' =
      match websites (config st) with
      | Some l => l ++ [Some added]
      | None => []
      end.
Proof.
  intros added. destruct Hsynced as (Hw & _ & Hfile).
  unfold postWebsite. rewrite Hname, Hurl. cbn [negb orb persist].
  eexists. split; [reflexivity|]. split; [reflexivity|]. split; [reflexivity|].
  split; [|split; [reflexivity|]].
  - cbn [configFile config]. rewrite Hfile. intros Heq.
    apply (f_equal websites) in Heq. cbn [websites] in Heq.
    destruct (websites (config st)) as [l|]; [|done].
    injection Heq as Heq. apply (f_equal length) in Heq.
    rewrite length_app in Heq. cbn [length default from_option id] in Heq. lia.
  - unfold monitoredWebsites. cbn [websiteMonitor config websites]. rewrite Hw.
    by destruct (websites (config st)).
Qed.

Lemma postWebsite_write_fails_witness :
  Js.truthy (Some "Down") = true ∧
  Js.truthy (Some "https://down.example") = true ∧
  synced (start loadedConfig) ∧
  ∃ st',
    postWebsite (Raised (Js.mkError "EACCES: permission denied")) (start loadedConfig)
      (Some "Down") (Some "https://down.example")
    = (st', status 500 (failure (Js.mkError "EACCES: permission denied"))) ∧
    configFile st' = loadedConfig ∧
    monitoredWebsites st' = [Some Endpoint.okExample; Some Samples.refusing].
Proof.
  split; [reflexivity|]. split; [reflexivity|].
  assert (Hs : synced (start loadedConfig)) by (split; [|split]; reflexivity).
  split; [exact Hs|].
  destruct (postWebsite_write_fails (start loadedConfig) (Some "Down")
              (Some "https://down.example") (Js.mkError "EACCES: permission denied")
              eq_refl eq_refl Hs)
    as (st' & Hpost & _ & Hfile & _ & _ & Hmon).
  exists st'. split; [exact Hpost|]. split; [exact Hfile | exact Hmon].
Defined.

(** A probe with an access mode, for which the SDK builds a client,
    begins with the existence check. *)
Lemma checkFileStorage_reaches_share storage env answer :
  Store.hasAccess storage = true →
  AzureFileMonitor.construction (AzureFileMonitor.share env) = Returned answer →
  ∃ rest r,
    AzureFileMonitor.checkFileStorage (Some storage) env = (ShareExists :: rest, Returned r).
Proof.
  intros Haccess Hbuilt.
  pose proof (StoreProbe.checkFileStorage_object storage env) as Hc.
  assert (Ht : ∃ rest,
            calls (AzureFileMonitor.checkFileStorage (Some storage) env)
            = ShareExists :: rest).
  { unfold AzureFileMonitor.checkFileStorage.
    rewrite StoreProbe.resolveShareClient_object, Haccess.
    rewrite (proj1 (StoreProbe.newShareClient_answer env _ Hbuilt)).
    rewrite bind_ret, calls_try_catch.
    assert (Hp : ∃ rest,
              calls (AzureFileMonitor.probeShare (Some storage) env (AzureFileMonitor.share env))
              = ShareExists :: rest).
    { unfold AzureFileMonitor.probeShare. rewrite calls_bind, completion_await.
      destruct (AzureFileMonitor.exists_ (AzureFileMonitor.share env));
        cbn [calls await fst]; by eexists. }
    destruct Hp as [rest ->].
    destruct (completion (AzureFileMonitor.probeShare _ _ _)); by eexists. }
  destruct Ht as [rest Ht].
  destruct (AzureFileMonitor.checkFileStorage (Some storage) env) as [t c].
  cbn [calls completion fst snd] in Ht, Hc. subst t c. by eexists _, _.
Qed.

(** X18. A request to add a store with a name, a share name and a SAS
    URL, whose write succeeds, appends a target that the restarted monitor
    watches.  The target has no account name, so [checkAll] keys its
    result by its name; and it has an access mode.  When the SDK builds a
    client from the SAS URL, the probe goes as far as the existence check
    of the share; when the SDK refuses the URL, which the request does
    not examine, the probe awaits no network call and returns an error
    result with the SDK's message.  Either way the result bears the
    target's name. *)
Theorem postStorage_probed
    (st : State) (name shareName sasUrl : option string)
    (directories : option (list string))
    (Hname : Js.truthy name = true) (Hshare : Js.truthy shareName = true)
    (Hsas : Js.truthy sasUrl = true) :
  let added :=
    {| AzureFileMonitor.accountName := None;
       AzureFileMonitor.shareName := Js.template shareName;
       AzureFileMonitor.sasUrl := sasUrl;
       AzureFileMonitor.credential := None;
       AzureFileMonitor.name := name;
       AzureFileMonitor.directories := Some (default [] directories) |} in
  ∃ st',
    postStorage (Returned tt) st name shareName sasUrl directories
    = (st', json (storageAdded "Azure storage added successfully"
                    (Js.template name) (Js.template shareName) directories)) ∧
    monitoredStorages st' = default [] (azureFileStorages (config st)) ++ [Some added] ∧
    websites (config st') = websites (config st) ∧
    configFile st' = config st' ∧
    AzureFileMonitor.key added = Js.template name ∧
    ∀ env, ∃ r,
      completion (AzureFileMonitor.checkFileStorage (Some added) env) = Returned r ∧
      AzureFileMonitor.r_name r = Js.template name ∧
      AzureFileMonitor.r_accountName r = None ∧
      match AzureFileMonitor.construction (AzureFileMonitor.share env) with
      | Returned _ =>
          ∃ rest,
            calls (AzureFileMonitor.checkFileStorage (Some added) env) = ShareExists :: rest
      | Raised e =>
          calls (AzureFileMonitor.checkFileStorage (Some added) env) = [] ∧
          AzureFileMonitor.r_status r = AzureFileMonitor.error ∧
          AzureFileMonitor.r_message r = Js.message e
      end.
Proof.
  intros added. unfold postStorage. rewrite Hname, Hshare, Hsas. cbn [negb orb].
  eexists. split; [reflexivity|]. split; [apply monitored_restart|].
  split; [reflexivity|]. split; [reflexivity|]. split.
  - unfold AzureFileMonitor.key, Js.or_else. cbn. by rewrite Hname.
  - intros env.
    assert (Haccess : Store.hasAccess added = true)
      by (unfold Store.hasAccess; cbn; by rewrite Hsas).
    assert (Hfields : ∀ status fileCount msg breakdown,
              AzureFileMonitor.r_name (Store.resultOf added status fileCount env msg breakdown)
              = Js.template name ∧
              AzureFileMonitor.r_accountName
                (Store.resultOf added status fileCount env msg breakdown) = None).
    { intros. unfold Store.resultOf, Js.or_else. cbn. by rewrite Hname. }
    exists (Store.outcome added env).
    split; [apply StoreProbe.checkFileStorage_object|].
    split; [|split].
    + unfold Store.outcome. rewrite Haccess.
      destruct (AzureFileMonitor.exists_ (AzureFileMonitor.share env)) as [[|]|e];
        try apply Hfields.
      unfold Store.counted_result.
      destruct (AzureFileMonitor.explicit _).
      * destruct (Store.firstInvalid _ _); apply Hfields.
      * destruct (Store.traversal _ _); apply Hfields.
    + unfold Store.outcome. rewrite Haccess.
      destruct (AzureFileMonitor.exists_ (AzureFileMonitor.share env)) as [[|]|e];
        try apply Hfields.
      unfold Store.counted_result.
      destruct (AzureFileMonitor.explicit _).
      * destruct (Store.firstInvalid _ _); apply Hfields.
      * destruct (Store.traversal _ _); apply Hfields.
    + destruct (AzureFileMonitor.construction (AzureFileMonitor.share env))
        as [answer|e] eqn:Hbuilt.
      * destruct (checkFileStorage_reaches_share added env answer Haccess Hbuilt)
          as (rest & r & Hprobe).
        exists rest. by rewrite Hprobe.
      * unfold Store.outcome, AzureFileMonitor.exists_. rewrite Haccess, Hbuilt.
        split; [|done].
        unfold AzureFileMonitor.checkFileStorage.
        rewrite StoreProbe.resolveShareClient_object, Haccess.
        unfold AzureFileMonitor.newShareClient. rewrite Hbuilt. reflexivity.
Qed.

Lemma postStorage_probed_witness :
  Js.truthy (Some "Backups") = true ∧
  Js.truthy (Some "backups") = true ∧
  Js.truthy (Some "https://acct.file.core.windows.net/?sv=2") = true ∧
  ∃ st',
    postStorage (Returned tt) (start loadedConfig) (Some "Backups") (Some "backups")
      (Some "https://acct.file.core.windows.net/?sv=2") None
    = (st', json (storageAdded "Azure storage added successfully" "Backups" "backups" None)) ∧
    monitoredStorages st' = [Some Samples.namedTarget] ∧
    AzureFileMonitor.key Samples.namedTarget = "Backups" ∧
    ∃ st'' r,
      postStorage (Returned tt) (start loadedConfig) (Some "Docs") (Some "docs")
        (Some "x") None
      = (st'', json (storageAdded "Azure storage added successfully" "Docs" "docs" None)) ∧
      monitoredStorages st'' = [Some Store.malformedTarget] ∧
      completion (AzureFileMonitor.checkFileStorage (Some Store.malformedTarget)
                    Store.refusedUrl) = Returned r ∧
      calls (AzureFileMonitor.checkFileStorage (Some Store.malformedTarget)
               Store.refusedUrl) = [] ∧
      AzureFileMonitor.r_message r = "Invalid URL".
Proof.
  split; [reflexivity|]. split; [reflexivity|]. split; [reflexivity|].
  destruct (postStorage_probed (start loadedConfig) (Some "Backups") (Some "backups")
              (Some "https://acct.file.core.windows.net/?sv=2") None
              eq_refl eq_refl eq_refl)
    as (st' & Hpost & Hmon & _ & _ & Hkey & _).
  exists st'. split; [exact Hpost|]. split; [exact Hmon|]. split; [exact Hkey|].
  destruct (postStorage_probed (start loadedConfig) (Some "Docs") (Some "docs")
              (Some "x") None eq_refl eq_refl eq_refl)
    as (st'' & Hpost' & Hmon' & _ & _ & _ & Henv).
  destruct (Henv Store.refusedUrl) as (r & Hr & _ & _ & Hcalls & _ & Hmsg).
  exists st'', r. split; [exact Hpost'|]. split; [exact Hmon'|].
  split; [exact Hr|]. split; [exact Hcalls | exact Hmsg].
Defined.

Lemma serve_synced jwt env st req :
  synced st → synced (serve jwt env (Returned tt) st req).1.
Proof.
  intros Hst. unfold serve.
  assert (Hhandle : ∀ user, synced (handle jwt env (Returned tt) st user (route req)).1).
  { intros user. unfold handle, postWebsite, postStorage, deleteWebsite, deleteStorage.
    destruct (route req); cbn [fst]; try done.
    - by destruct (negb _ || negb _).
    - by destruct (negb _ || negb _ || negb _).
    - destruct (negative index); [done|].
      destruct (websites (config st)); [|done]. by destruct (beyond index _).
    - destruct (negative index); [done|].
      destruct (azureFileStorages (config st)); [|done]. by destruct (beyond index _). }
  destruct (route req) eqn:Hr; try done;
    (destruct (authenticateToken jwt env (authorization req)) as [reply|user];
     [done | apply Hhandle]).
Qed.

(** X19. As long as every write of [config.json] succeeds, after any
    sequence of requests from the start the monitors watch exactly the
    lists of [config], an absent list counting as empty, and
    [config.json] holds what [config] holds. *)
Theorem serveAll_synced
    (jwt : Jwt) (env : ProcessEnv) (loaded : Config) (requests : list Request) :
  let st := serveAll jwt env (start loaded) requests in
  monitoredWebsites st = default [] (websites (config st)) ∧
  monitoredStorages st = default [] (azureFileStorages (config st)) ∧
  configFile st = config st.
Proof.
  intros st.
  assert (Hsynced : synced st).
  { subst st. unfold serveAll.
    assert (Hstart : synced (start loaded)) by done.
    revert Hstart. generalize (start loaded).
    induction requests as [|req rest IH]; intros st0 Hst0; [done|].
    cbn [foldl]. by apply IH, serve_synced. }
  destruct Hsynced as (Hw & Hs & Hfile).
  unfold monitoredWebsites, monitoredStorages. rewrite Hw, Hs.
  split; [|split; [|done]].
  - by destruct (websites (config st)).
  - by destruct (azureFileStorages (config st)).
Qed.

End AppFacts.

(** ** More on [runMonitoring] *)

Module ServerFacts.

Lemma last_filter_none {A} (P : A → Prop) `{∀ x, Decision (P x)} (l : list A) :
  (∀ x, x ∈ l → ¬ P x) → last (filter P l) = None.
Proof. intros Hnone. by rewrite filter_none. Qed.

(** X20. A cycle over target objects replaces the published results as a
    whole: whatever was published before, the new results have the time
    of the cycle as [lastUpdate] and no entry under a key that none of the
    probed targets has, so the result of a target that is no longer
    configured is gone.  Every probed target whose key is not [__proto__]
    has an entry; there is never an entry [__proto__]; and when no target
    has the key [__proto__], the published dictionaries have no prototype
    of their own. *)
Theorem runMonitoring_drops_stale
    (previous : Server.MonitoringResults)
    (websites : list (WebsiteMonitor.Website * WebsiteMonitor.World))
    (storages : list (AzureFileMonitor.Storage * AzureFileMonitor.World))
    (clock : Z) :
  let published :=
    Server.runMonitoring previous (object <$> websites) (object <$> storages) clock in
  Server.lastUpdate published = Some clock ∧
  (∀ k, (∀ t, t ∈ websites → WebsiteMonitor.url t.1 ≠ k) →
        Js.own (Server.websites published) !! k = None) ∧
  (∀ k, (∀ t, t ∈ storages → AzureFileMonitor.key t.1 ≠ k) →
        Js.own (Server.azureFiles published) !! k = None) ∧
  (∀ t, t ∈ websites → WebsiteMonitor.url t.1 ≠ "__proto__" →
        is_Some (Js.own (Server.websites published) !! WebsiteMonitor.url t.1)) ∧
  (∀ t, t ∈ storages → AzureFileMonitor.key t.1 ≠ "__proto__" →
        is_Some (Js.own (Server.azureFiles published) !! AzureFileMonitor.key t.1)) ∧
  Js.own (Server.websites published) !! "__proto__" = None ∧
  Js.own (Server.azureFiles published) !! "__proto__" = None ∧
  ((∀ t, t ∈ websites → WebsiteMonitor.url t.1 ≠ "__proto__") →
   Js.proto (Server.websites published) = None) ∧
  ((∀ t, t ∈ storages → AzureFileMonitor.key t.1 ≠ "__proto__") →
   Js.proto (Server.azureFiles published) = None).
Proof.
  intros published. subst published. unfold Server.runMonitoring.
  destruct (settle_last WebsiteMonitor.url Endpoint.outcome
              WebsiteMonitor.task WebsiteMonitor.settle
              (fun _ => eq_refl) (fun _ _ _ => eq_refl) Cycle.website_task_object
              websites) as (websiteResults & Hw & Hwl & Hwk & Hwp).
  destruct (settle_last AzureFileMonitor.key Store.outcome
              AzureFileMonitor.task AzureFileMonitor.settle
              (fun _ => eq_refl) (fun _ _ _ => eq_refl) Cycle.storage_task_object
              storages) as (azureFileResults & Hs & Hsl & Hsk & Hsp).
  unfold WebsiteMonitor.checkAll, AzureFileMonitor.checkAll. rewrite Hw, Hs.
  cbn [Server.lastUpdate Server.websites Server.azureFiles].
  split; [done|].
  split; [|split; [|split; [|split; [|split; [done|split; [done|split]]]]]].
  - intros k Hk. destruct (decide (k = "__proto__")) as [->|Hne]; [done|].
    rewrite (Hwl k Hne), last_filter_none; [done|].
    intros t Ht. by apply Hk.
  - intros k Hk. destruct (decide (k = "__proto__")) as [->|Hne]; [done|].
    rewrite (Hsl k Hne), last_filter_none; [done|].
    intros t Ht. by apply Hk.
  - intros [w env] Hin Hne.
    exact (proj1 (settle_has_entry WebsiteMonitor.url Endpoint.outcome
             WebsiteMonitor.task WebsiteMonitor.settle
             (fun _ => eq_refl) (fun _ _ _ => eq_refl) Cycle.website_task_object
             (object <$> websites) Js.emptyDict websiteResults w env
             (list_elem_of_fmap_2 object _ (w, env) Hin) Hw) Hne).
  - intros [s env] Hin Hne.
    exact (proj1 (settle_has_entry AzureFileMonitor.key Store.outcome
             AzureFileMonitor.task AzureFileMonitor.settle
             (fun _ => eq_refl) (fun _ _ _ => eq_refl) Cycle.storage_task_object
             (object <$> storages) Js.emptyDict azureFileResults s env
             (list_elem_of_fmap_2 object _ (s, env) Hin) Hs) Hne).
  - intros Hnone. rewrite Hwp, last_filter_none; [done|].
    intros t Ht. by apply Hnone.
  - intros Hnone. rewrite Hsp, last_filter_none; [done|].
    intros t Ht. by apply Hnone.
Qed.

End ServerFacts.
